(** * GitHub Stars to Awesome List Generator: a shallow embedding

    Rocq model of [scripts/generate_awesome_list.py] (class
    [AwesomeListGenerator] and the [__main__] block) together with the
    properties of its cache reconciliation, fallback classification and
    README rendering.

    Conventions of the embedding.
    - A Python [str] is a [string] holding its UTF-8 bytes.  Byte-wise
      comparison of UTF-8 agrees with Python's code point comparison, and
      the separators the script looks for (space, [/], [&]) are ASCII, so
      [split], [replace] and [sorted] are exact.  [str.lower] follows the
      interpreter's Unicode tables and is taken from [Env].
    - A Python [int] is a [Z].
    - A dict read with [d["k"]] or [d.get("k", default)] is a record whose
      field for key [k] is an [option]: [None] means the key is missing,
      so that [d["k"]] raises [KeyError] and [d.get] yields its default.  A
      value that may be Python's [None] (JSON [null]) is itself an
      [option string].
    - The cache and the category grouping are Python dicts whose iteration
      order matters: they are association lists in insertion order.
    - Exceptions are explicit ([result]); the remote services, the clock, the
      file decoders and the environment variables are fields of [Env].  File
      writes are those that succeed: a write replaces the whole content, and
      the failures of the file system and of the console are not modelled.
    - Console output is kept as a list of [Event]s for the lines the
      reconciliation prints; banners are not modelled. *)

From Stdlib Require Import List String Ascii ZArith Bool Lia.
From Stdlib Require Import Sorted Permutation DecimalString.
Import ListNotations.

Open Scope string_scope.
Open Scope list_scope.
Open Scope Z_scope.

(* ================================================================= *)
(** ** Python primitives *)

Module Py.

(** Exceptions the script can raise or let through. *)
Inductive exn : Type :=
| KeyError (key : string)
| IndexError
| ValueError (msg : string)
| JSONDecodeError
| YAMLError
| ClassifierError
    (* whatever [Exception] lines 176-191 raise: a failed request, an empty
       or non-JSON reply, a reply without the two fields *)
| SystemExit (code : Z).

Inductive result (A : Type) : Type :=
| Ok (a : A)
| Raise (e : exn).
Arguments Ok {A} a.
Arguments Raise {A} e.

Definition bind {A B} (m : result A) (f : A -> result B) : result B :=
  match m with
  | Ok a => f a
  | Raise e => Raise e
  end.

(** [d["k"]] on a key that may be missing. *)
Definition getitem {A} (key : string) (v : option A) : result A :=
  match v with
  | Some a => Ok a
  | None => Raise (KeyError key)
  end.

(** [d.get("k", default)]. *)
Definition get {A} (v : option A) (default : A) : A :=
  match v with
  | Some a => a
  | None => default
  end.

(** Truth value of an [Optional[str]]: [None] and [""] are false. *)
Definition truthy (v : option string) : bool :=
  match v with
  | Some s => negb (String.eqb s "")
  | None => false
  end.

(** Truth value of an [Optional[int]]: [None] and [0] are false. *)
Definition truthy_int (v : option Z) : bool :=
  match v with
  | Some z => negb (z =? 0)
  | None => false
  end.

(** [str(n)] for an int. *)
Definition str_int (z : Z) : string :=
  NilZero.string_of_int (Z.to_int z).

(** [str(v)] for an [Optional[str]], as an f-string formats it. *)
Definition str_opt (v : option string) : string :=
  match v with
  | Some s => s
  | None => "None"
  end.

(** An f-string: the concatenation of its pieces. *)
Definition fstr (parts : list string) : string := String.concat "" parts.

Definition nl : string := String "010"%char EmptyString.
Definition dquote : string := String "034"%char EmptyString.

(** [sep.join(l)]. *)
Definition join (sep : string) (l : list string) : string :=
  String.concat sep l.

(** [c.lower()] on one ASCII character. *)
Definition lower_ascii (c : ascii) : ascii :=
  let n := nat_of_ascii c in
  if (Nat.leb 65 n && Nat.leb n 90)%bool then ascii_of_nat (n + 32) else c.

(** [s.lower()] for an ASCII [s]: what the sample environments use for
    [str.lower], on ASCII labels. *)
Fixpoint ascii_lower (s : string) : string :=
  match s with
  | EmptyString => EmptyString
  | String c s' => String (lower_ascii c) (ascii_lower s')
  end.

(** [s.replace(old, new)] for a one-character [old]. *)
Fixpoint replace (old : ascii) (new : string) (s : string) : string :=
  match s with
  | EmptyString => EmptyString
  | String c s' =>
      if Ascii.eqb c old then String.append new (replace old new s')
      else String c (replace old new s')
  end.

(** [s.split(sep)] for a one-character [sep]: never empty, one more
    segment than there are separators. *)
Fixpoint split (sep : ascii) (s : string) : list string :=
  match s with
  | EmptyString => [EmptyString]
  | String c s' =>
      if Ascii.eqb c sep then EmptyString :: split sep s'
      else match split sep s' with
           | seg :: segs => String c seg :: segs
           | [] => [String c EmptyString]
           end
  end.

(** [l[i]] on a list. *)
Definition index {A} (l : list A) (i : nat) : result A :=
  match nth_error l i with
  | Some a => Ok a
  | None => Raise IndexError
  end.

(** An insertion-ordered dict with [str] keys. *)
Section Dict.
Context {V : Type}.

Definition dict := list (string * V).

(** [d.get(k)] / [d[k]]. *)
Fixpoint lookup (k : string) (d : dict) : option V :=
  match d with
  | [] => None
  | (k', v) :: d' => if String.eqb k k' then Some v else lookup k d'
  end.

(** [k in d]. *)
Definition mem (k : string) (d : dict) : bool :=
  match lookup k d with
  | Some _ => true
  | None => false
  end.

(** [d[k] = v]: overwrite in place, or append a new key at the end. *)
Fixpoint setitem (k : string) (v : V) (d : dict) : dict :=
  match d with
  | [] => [(k, v)]
  | (k', v') :: d' =>
      if String.eqb k k' then (k', v) :: d'
      else (k', v') :: setitem k v d'
  end.

(** [d.keys()], in insertion order. *)
Definition keys (d : dict) : list string := map fst d.

End Dict.
Arguments dict V : clear implicits.

(** [sorted(l)] on strings and [l.sort(key=..., reverse=True)]: Python's
    sort is stable, also with [reverse=True], so both are fixed by their
    specification; insertion from the right computes them. *)
Fixpoint insert_asc (x : string) (l : list string) : list string :=
  match l with
  | [] => [x]
  | y :: l' => if String.ltb y x then y :: insert_asc x l' else x :: l
  end.

Definition sorted (l : list string) : list string :=
  fold_right insert_asc [] l.

Section SortDesc.
Context {A : Type} (key : A -> Z).

Fixpoint insert_desc (x : A) (l : list A) : list A :=
  match l with
  | [] => [x]
  | y :: l' => if key x <? key y then y :: insert_desc x l' else x :: l
  end.

Definition sort_reverse (l : list A) : list A :=
  fold_right insert_desc [] l.
End SortDesc.

End Py.

Import Py.

(* ================================================================= *)
(** ** Data model *)

(** One item of the list the GitHub API returns (a JSON object).  The keys
    the script reads are [full_name], [description], [topics], [language],
    [stargazers_count] and [html_url].  A key may be missing; a value that is
    there has the type GitHub's schema gives it, and [null] is modelled for
    the two fields the schema lets be [null], description and language
    (a [null] or ill-typed value elsewhere, such as [topics: null], is
    outside the model). *)
Record Repo : Type := mkRepo {
  repo_full_name : option string;
  repo_description : option (option string);
  repo_topics : option (list string);
  repo_language : option (option string);
  repo_stargazers_count : option Z;
  repo_html_url : option string
}.

(** One value of the cache: the dict [categorize_with_llm] returns and
    [json.load] reads back. *)
Record Entry : Type := mkEntry {
  entry_category : option string;
  entry_description : option string;
  entry_url : option string;
  entry_stars : option Z;
  entry_language : option (option string);
  entry_processed_at : option string
}.

(** [entry["stars"] = v]. *)
Definition set_stars (e : Entry) (v : Z) : Entry :=
  {| entry_category := entry_category e;
     entry_description := entry_description e;
     entry_url := entry_url e;
     entry_stars := Some v;
     entry_language := entry_language e;
     entry_processed_at := entry_processed_at e |}.

(** The cache: identifier [owner/name] to entry, in insertion order. *)
Definition Cache : Type := dict Entry.

(** The parsed [.categories] file. *)
Record CategoryDef : Type := mkCategoryDef {
  cat_name : option string;
  cat_description : option string
}.

Record Catalog : Type := mkCatalog {
  catalog_categories : option (list CategoryDef)
}.

(** [self.dry_run] and [self.limit]. *)
Record Config : Type := mkConfig {
  dry_run : bool;
  limit : option Z
}.

(** Lines printed by the reconciliation. *)
Inductive Event : Type :=
| PrintProcessing (repo_full_name : string)
    (* "Processing new star: {repo_full_name}" *)
| PrintError (repo_name : string)
    (* "Error processing {repo_name}: {e}" *)
| PrintDryRunSummary (processed_new new_count limit skipped : Z)
    (* "[DRY RUN] Processed {processed_new} of {new_count} new stars
       (limit: {limit})" and "[DRY RUN] {new_count - processed_new} new
       stars were skipped due to limit" *)
| PrintSummary (new_count updated_count : Z).
    (* "Processed {new_count} new stars, updated {updated_count} existing
       stars" *)

(** A page of the starred-items endpoint. *)
Record Response : Type := mkResponse {
  status_code : Z;
  response_json : list Repo
}.

(** What the script reads from outside.  The remote calls and the clock are
    indexed by the number of interactions made so far, so that two calls
    with the same arguments may answer differently.

    [messages_create n prompt] stands for lines 176-191: [None] when the
    request, [message.content[0].text.strip()], [json.loads] or one of
    [result["category"]], [result["description"]] raises, and the two strings
    otherwise.

    [GITHUB_TOKEN], [ANTHROPIC_API_KEY] and [GITHUB_USERNAME] are the
    entries of [os.environ]; [dotenv_values content name] is the value a
    [.env] file of this content gives to the variable [name], if any;
    [str_lower s] is [s.lower()]. *)
Record Env : Type := mkEnv {
  imports_ok : bool;
  GITHUB_TOKEN : option string;
  ANTHROPIC_API_KEY : option string;
  GITHUB_USERNAME : option string;
  dotenv_values : string -> string -> option string;
  str_lower : string -> string;
  messages_create : nat -> string -> option (string * string);
  utcnow_isoformat : nat -> string;
  utcnow_strftime : nat -> string;
  requests_get : nat -> string -> Z -> Response;
  json_load : string -> option Cache;
  json_dump : Cache -> string;
  yaml_safe_load : string -> option (option Catalog)
}.

(* ================================================================= *)
(** ** Effects: interactions, console and exceptions *)

(** [clock] counts the interactions made so far, [stdout] holds the printed
    lines, oldest first, and [files] maps a file name to its content. *)
Record World : Type := mkWorld {
  clock : nat;
  stdout : list Event;
  files : dict string
}.

Definition M (A : Type) : Type := World -> World * result A.

Definition ret {A} (a : A) : M A := fun w => (w, Ok a).

Definition bindM {A B} (m : M A) (f : A -> M B) : M B :=
  fun w =>
    match m w with
    | (w', Ok a) => f a w'
    | (w', Raise e) => (w', Raise e)
    end.

Notation "x <- m ;; k" := (bindM m (fun x => k))
  (at level 61, m at next level, right associativity).
Notation "' pat <- m ;; k" := (bindM m (fun x => match x with pat => k end))
  (at level 61, pat pattern, m at next level, right associativity).
Notation "m ;;; k" := (bindM m (fun _ => k))
  (at level 61, right associativity).

Definition lift {A} (r : result A) : M A := fun w => (w, r).

Definition print (ev : Event) : M unit :=
  fun w => ({| clock := clock w; stdout := stdout w ++ [ev];
               files := files w |}, Ok tt).

(** One interaction with the outside: answers with its index. *)
Definition interact {A} (f : nat -> A) : M A :=
  fun w => ({| clock := S (clock w); stdout := stdout w;
               files := files w |}, Ok (f (clock w))).

(** [os.path.exists(name)] followed by reading the whole file. *)
Definition read_file (name : string) : M (option string) :=
  fun w => (w, Ok (lookup name (files w))).

(** [with open(name, 'w') as f: f.write(content)], when it succeeds: the
    file then holds [content] and nothing else.  A write that fails (and
    the truncated file it would leave) is outside the model. *)
Definition write_file (name content : string) : M unit :=
  fun w => ({| clock := clock w; stdout := stdout w;
               files := setitem name content (files w) |}, Ok tt).

(** [except Exception] does not catch [SystemExit]. *)
Definition is_Exception (e : exn) : bool :=
  match e with
  | SystemExit _ => false
  | _ => true
  end.

(** [try: body  except Exception as e: handler]. *)
Definition try_except {A} (body : M A) (handler : exn -> M A) : M A :=
  fun w =>
    match body w with
    | (w', Ok a) => (w', Ok a)
    | (w', Raise e) => if is_Exception e then handler e w' else (w', Raise e)
    end.

(** Unfolds the operations of [M]. *)
Ltac unfold_M :=
  unfold bindM, lift, ret, print, interact, try_except, read_file, write_file.

(** [for x in l: s = body(s, x)]. *)
Fixpoint for_each {A S} (body : S -> A -> M S) (l : list A) (s : S) : M S :=
  match l with
  | [] => ret s
  | x :: l' => s' <- body s x ;; for_each body l' s'
  end.

(* ================================================================= *)
(** ** The Classifier: [categorize_with_llm] *)

(** The reply format both prompts end with. *)
Definition json_format_line : string :=
  fstr ["{"; dquote; "category"; dquote; ": "; dquote; "Category Name";
        dquote; ", "; dquote; "description"; dquote; ": "; dquote;
        "Your concise description here."; dquote; "}"].

(** Lines 131-134: one line per predefined category. *)
Fixpoint category_details (cats : list CategoryDef) : result (list string) :=
  match cats with
  | [] => Ok []
  | cat :: cats' =>
      Py.bind (getitem "name" (cat_name cat)) (fun cat_name =>
      let cat_desc := get (cat_description cat) "" in
      Py.bind (category_details cats') (fun rest =>
      Ok (fstr ["- "; cat_name; ": "; cat_desc] :: rest)))
  end.

(** Lines 127-173. *)
Definition build_prompt (repo_name : string) (description : option string)
    (topics : string) (language : option string) (stars : Z)
    (predefined_categories : option Catalog) : result string :=
  match predefined_categories with
  | Some {| catalog_categories := Some cats |} =>
      Py.bind (category_details cats) (fun details =>
      let categories_text := join nl details in
      Ok (join nl [
        "Analyze this GitHub repository and categorize it.";
        "";
        "Repository Information:";
        fstr ["- Name: "; repo_name];
        fstr ["- Description: "; str_opt description];
        fstr ["- Topics: "; topics];
        fstr ["- Language: "; str_opt language];
        fstr ["- Stars: "; str_int stars];
        "";
        "IMPORTANT: You MUST choose EXACTLY ONE category from this list. Do NOT create new categories.";
        "";
        "Available Categories:";
        categories_text;
        "";
        "Your tasks:";
        "1. Select the MOST appropriate category from the list above (use exact category name)";
        "2. Write a concise 1-2 sentence description explaining what the repository does and why it's useful";
        "";
        "Respond ONLY with valid JSON in this exact format:";
        json_format_line;
        "";
        "Remember: Use the EXACT category name from the list above."]))
  | _ =>
      Ok (join nl [
        "Analyze this GitHub repository and provide:";
        fstr ["1. A category name (e.g., "; dquote; "Web Development"; dquote;
              ", "; dquote; "Machine Learning"; dquote; ", "; dquote;
              "DevOps"; dquote; ", etc.)"];
        "2. A concise 1-2 sentence description that explains what the repository does and why it's useful";
        "";
        fstr ["Repository: "; repo_name];
        fstr ["Description: "; str_opt description];
        fstr ["Topics: "; topics];
        fstr ["Language: "; str_opt language];
        fstr ["Stars: "; str_int stars];
        "";
        "Respond ONLY with valid JSON in this exact format:";
        json_format_line])
  end.

(** [language if language else "Other"]. *)
Definition fallback_category (language : option string) : string :=
  if truthy language then str_opt language else "Other".

(** [description or "Interesting repository"]. *)
Definition fallback_description (description : option string) : string :=
  if truthy description then str_opt description else "Interesting repository".

Definition categorize_with_llm (env : Env) (repo : Repo)
    (predefined_categories : option Catalog) : M Entry :=
  repo_name <- lift (getitem "full_name" (repo_full_name repo)) ;;
  let description := get (repo_description repo) (Some "No description provided") in
  let topics := join ", " (get (repo_topics repo) []) in
  let language := get (repo_language repo) (Some "Unknown") in
  let stars := get (repo_stargazers_count repo) 0 in
  prompt <- lift (build_prompt repo_name description topics language stars
                    predefined_categories) ;;
  try_except
    (reply <- interact (fun n => messages_create env n prompt) ;;
     '(category, text) <-
        lift (match reply with
              | Some r => Ok r
              | None => Raise ClassifierError
              end) ;;
     url <- lift (getitem "html_url" (repo_html_url repo)) ;;
     now <- interact (utcnow_isoformat env) ;;
     ret {| entry_category := Some category;
            entry_description := Some text;
            entry_url := Some url;
            entry_stars := Some stars;
            entry_language := Some language;
            entry_processed_at := Some now |})
    (fun e =>
     print (PrintError repo_name) ;;;
     (* Fallback to basic categorization *)
     url <- lift (getitem "html_url" (repo_html_url repo)) ;;
     now <- interact (utcnow_isoformat env) ;;
     ret {| entry_category := Some (fallback_category language);
            entry_description := Some (fallback_description description);
            entry_url := Some url;
            entry_stars := Some stars;
            entry_language := Some language;
            entry_processed_at := Some now |}).

(* ================================================================= *)
(** ** The Reconciler: [process_new_stars] *)

(** The loop's local variables. *)
Record Counters : Type := mkCounters {
  new_count : Z;
  updated_count : Z;
  processed_new : Z
}.

(** [self.dry_run and self.limit and processed_new >= self.limit]. *)
Definition limit_reached (cfg : Config) (processed_new : Z) : bool :=
  (dry_run cfg && truthy_int (limit cfg) && (get (limit cfg) 0 <=? processed_new))%bool.

(** The body of the loop of lines 216-237. *)
Definition process_repo (cfg : Config) (env : Env)
    (predefined_categories : option Catalog)
    (s : Cache * Counters) (repo : Repo) : M (Cache * Counters) :=
  let '(cache, n) := s in
  repo_full_name <- lift (getitem "full_name" (repo_full_name repo)) ;;
  match lookup repo_full_name cache with
  | Some entry =>
      (* Update star count if changed *)
      stored <- lift (getitem "stars" (entry_stars entry)) ;;
      fetched <- lift (getitem "stargazers_count" (repo_stargazers_count repo)) ;;
      if negb (stored =? fetched) then
        ret (setitem repo_full_name (set_stars entry fetched) cache,
             {| new_count := new_count n;
                updated_count := updated_count n + 1;
                processed_new := processed_new n |})
      else ret (cache, n)
  | None =>
      if limit_reached cfg (processed_new n) then
        (* Count it but don't process *)
        ret (cache,
             {| new_count := new_count n + 1;
                updated_count := updated_count n;
                processed_new := processed_new n |})
      else
        print (PrintProcessing repo_full_name) ;;;
        result <- categorize_with_llm env repo predefined_categories ;;
        ret (setitem repo_full_name result cache,
             {| new_count := new_count n + 1;
                updated_count := updated_count n;
                processed_new := processed_new n + 1 |})
  end.

Definition process_new_stars (cfg : Config) (env : Env) (stars : list Repo)
    (cache : Cache) (predefined_categories : option Catalog) : M Cache :=
  '(cache, n) <- for_each (process_repo cfg env predefined_categories) stars
                   (cache, {| new_count := 0; updated_count := 0;
                              processed_new := 0 |}) ;;
  (if (dry_run cfg && truthy_int (limit cfg)
       && (processed_new n <? new_count n))%bool
   then print (PrintDryRunSummary (processed_new n) (new_count n)
                 (get (limit cfg) 0) (new_count n - processed_new n))
   else print (PrintSummary (new_count n) (updated_count n))) ;;;
  ret cache.

(* ================================================================= *)
(** ** The Document Renderer: [generate_readme] *)

(** The dict appended to a category's list at lines 260-266. *)
Record Item : Type := mkItem {
  item_name : string;
  item_url : string;
  item_description : string;
  item_stars : Z;
  item_language : option string
}.

(** [categories[category].append(item)], creating the list first when the
    category is new (lines 258-260). *)
Definition append_item (category : string) (item : Item)
    (categories : dict (list Item)) : dict (list Item) :=
  match lookup category categories with
  | Some items => setitem category (items ++ [item]) categories
  | None => setitem category [item] categories
  end.

(** Lines 255-266: organize by category, in the cache's order. *)
Fixpoint group_by_category (items : list (string * Entry))
    (categories : dict (list Item)) : result (dict (list Item)) :=
  match items with
  | [] => Ok categories
  | (repo_name, data) :: items' =>
      Py.bind (getitem "category" (entry_category data)) (fun category =>
      Py.bind (getitem "url" (entry_url data)) (fun url =>
      Py.bind (getitem "description" (entry_description data)) (fun description =>
      Py.bind (getitem "stars" (entry_stars data)) (fun stars =>
      let language := get (entry_language data) (Some "") in
      group_by_category items'
        (append_item category
           {| item_name := repo_name; item_url := url;
              item_description := description; item_stars := stars;
              item_language := language |}
           categories)))))
  end.

(** Lines 270-271: every category's list sorted by stars, descending. *)
Definition sort_each (categories : dict (list Item)) : dict (list Item) :=
  map (fun kv => (fst kv, sort_reverse item_stars (snd kv))) categories.

(** Line 281, for the interpreter's [str.lower]. *)
Definition anchor (lower : string -> string) (category : string) : string :=
  replace "&" "" (replace "/" "" (replace " " "-" (lower category))).

(** Line 282: one line of the table of contents. *)
Definition toc_line (lower : string -> string) (category : string)
    (count : nat) : string :=
  fstr ["- ["; category; "](#user-content-"; anchor lower category; ") (";
        str_int (Z.of_nat count); ")"; nl].

(** Lines 289-292: one entry line. *)
Definition repo_line (repo : Item) : result string :=
  Py.bind (index (split "/" (item_name repo)) 1) (fun repo_name =>
  let language :=
    if truthy (item_language repo)
    then fstr [" `"; str_opt (item_language repo); "`"] else "" in
  let stars :=
    if 0 <? item_stars repo
    then fstr ["⭐ "; str_int (item_stars repo)] else "" in
  Ok (fstr ["- **["; repo_name; "]("; item_url repo; ")** - ";
            item_description repo; language; " "; stars; nl])).

Fixpoint repo_lines (repos : list Item) : result string :=
  match repos with
  | [] => Ok ""
  | repo :: repos' =>
      Py.bind (repo_line repo) (fun line =>
      Py.bind (repo_lines repos') (fun rest =>
      Ok (String.append line rest)))
  end.

(** Lines 280-282. *)
Fixpoint toc (lower : string -> string) (sorted_categories : list string)
    (categories : dict (list Item)) : result string :=
  match sorted_categories with
  | [] => Ok ""
  | category :: rest =>
      Py.bind (getitem category (lookup category categories)) (fun repos =>
      Py.bind (toc lower rest categories) (fun lines =>
      Ok (String.append (toc_line lower category (List.length repos)) lines)))
  end.

(** Lines 286-293. *)
Fixpoint sections (sorted_categories : list string)
    (categories : dict (list Item)) : result string :=
  match sorted_categories with
  | [] => Ok ""
  | category :: rest =>
      Py.bind (getitem category (lookup category categories)) (fun repos =>
      Py.bind (repo_lines repos) (fun lines =>
      Py.bind (sections rest categories) (fun others =>
      Ok (fstr ["## "; category; nl; nl; lines; nl; others]))))
  end.

(** Lines 255-271: the category labels in section order and the grouping
    with every list sorted. *)
Definition organize (cache : Cache)
    : result (list string * dict (list Item)) :=
  Py.bind (group_by_category cache []) (fun categories =>
  let sorted_categories := sorted (keys categories) in
  Ok (sorted_categories, sort_each categories)).

(** Lines 274-296, for the timestamp [now]. *)
Definition readme_content (lower : string -> string) (now : string)
    (cache : Cache) (sorted_categories : list string)
    (categories : dict (list Item)) : result string :=
  Py.bind (toc lower sorted_categories categories) (fun contents =>
  Py.bind (sections sorted_categories categories) (fun body =>
  Ok (fstr [
    "# My Awesome List"; nl; nl;
    "> A curated list of my GitHub stars, automatically organized and described by AI 🤖";
    nl; nl;
    "*Last updated: "; now; " | Total repos: ";
    str_int (Z.of_nat (List.length cache)); "*"; nl; nl;
    "## Contents"; nl; nl;
    contents;
    nl; "---"; nl; nl;
    body;
    "---"; nl; nl;
    "*Generated automatically by [MyAwsomeList](https://github.com/felixscode/MyAwsomeList) using Claude API*";
    nl]))).

(** The document for a cache, at the timestamp [now]. *)
Definition render (lower : string -> string) (now : string) (cache : Cache)
    : result string :=
  Py.bind (organize cache) (fun '(sorted_categories, categories) =>
  readme_content lower now cache sorted_categories categories).

(** [self.readme_file], line 46. *)
Definition readme_file (cfg : Config) : string :=
  if dry_run cfg then "README.dry-run.md" else "README.md".

Definition generate_readme (cfg : Config) (env : Env) (cache : Cache) : M unit :=
  '(sorted_categories, categories) <- lift (organize cache) ;;
  now <- interact (utcnow_strftime env) ;;
  content <- lift (readme_content (str_lower env) now cache sorted_categories
                     categories) ;;
  write_file (readme_file cfg) content.

(* ================================================================= *)
(** ** The Cache Store, the Source Fetcher and the run *)

Definition cache_file : string := ".cache".
Definition categories_file : string := ".categories".

(** Lines 96-101. *)
Definition load_cache (env : Env) : M Cache :=
  f <- read_file cache_file ;;
  match f with
  | Some content =>
      match json_load env content with
      | Some cache => ret cache
      | None => lift (Raise JSONDecodeError)
      end
  | None => ret []
  end.

(** Lines 103-110. *)
Definition save_cache (cfg : Config) (env : Env) (cache : Cache) : M unit :=
  if dry_run cfg then ret tt
  else write_file cache_file (json_dump env cache).

(** Lines 112-117. *)
Definition load_categories (env : Env) : M (option Catalog) :=
  f <- read_file categories_file ;;
  match f with
  | Some content =>
      match yaml_safe_load env content with
      | Some catalog => ret catalog
      | None => lift (Raise YAMLError)
      end
  | None => ret None
  end.

(** Lines 67-71. *)
Definition starred_url (env : Env) : string :=
  if truthy (GITHUB_USERNAME env)
  then fstr ["https://api.github.com/users/"; str_opt (GITHUB_USERNAME env);
             "/starred"]
  else "https://api.github.com/user/starred".

(** The [while True] loop of lines 73-91, for at most [fuel] requests;
    [None] when the loop is still running after them. *)
Fixpoint fetch_pages (env : Env) (fuel : nat) (url : string) (page : Z)
    (stars : list Repo) : M (option (list Repo)) :=
  match fuel with
  | O => ret None
  | S fuel' =>
      response <- interact (fun n => requests_get env n url page) ;;
      if negb (status_code response =? 200) then lift (Raise (SystemExit 1))
      else
        match response_json response with
        | [] => ret (Some stars)
        | page_stars => fetch_pages env fuel' url (page + 1) (stars ++ page_stars)
        end
  end.

(** Lines 54-94. *)
Definition fetch_github_stars (env : Env) (fuel : nat) : M (option (list Repo)) :=
  fetch_pages env fuel (starred_url env) 1 [].

(** [os.environ.get(name)] after [load_dotenv] has read a file of this
    content: a variable the process already has keeps its value, the others
    get the file's. *)
Definition merged (env : Env) (content : string) (name : string)
    (current : option string) : option string :=
  match current with
  | Some value => Some value
  | None => dotenv_values env content name
  end.

(** [load_dotenv(".env")]: the environment with the file merged in. *)
Definition load_dotenv (env : Env) (content : string) : Env :=
  {| imports_ok := imports_ok env;
     GITHUB_TOKEN := merged env content "GITHUB_TOKEN" (GITHUB_TOKEN env);
     ANTHROPIC_API_KEY :=
       merged env content "ANTHROPIC_API_KEY" (ANTHROPIC_API_KEY env);
     GITHUB_USERNAME :=
       merged env content "GITHUB_USERNAME" (GITHUB_USERNAME env);
     dotenv_values := dotenv_values env;
     str_lower := str_lower env;
     messages_create := messages_create env;
     utcnow_isoformat := utcnow_isoformat env;
     utcnow_strftime := utcnow_strftime env;
     requests_get := requests_get env;
     json_load := json_load env;
     json_dump := json_dump env;
     yaml_safe_load := yaml_safe_load env |}.

Definition dotenv_file : string := ".env".

(** Lines 16-52: [__init__] loads [./.env] when it exists, then reads and
    checks the credentials; it returns the environment the rest of the run
    reads. *)
Definition init (env : Env) (cfg : Config) : M Env :=
  if negb (imports_ok env) then lift (Raise (SystemExit 1))
  else
    f <- read_file dotenv_file ;;
    let env := match f with
               | Some content => load_dotenv env content
               | None => env
               end in
    if negb (truthy (GITHUB_TOKEN env)) then
      lift (Raise (ValueError "GITHUB_TOKEN environment variable is required"))
    else if negb (truthy (ANTHROPIC_API_KEY env)) then
      lift (Raise (ValueError "ANTHROPIC_API_KEY environment variable is required"))
    else ret env.

(** Lines 320-325: the names listed after loading the catalog. *)
Fixpoint cat_names (cats : list CategoryDef) : result (list string) :=
  match cats with
  | [] => Ok []
  | cat :: cats' =>
      Py.bind (getitem "name" (cat_name cat)) (fun name =>
      Py.bind (cat_names cats') (fun rest => Ok (name :: rest)))
  end.

(** Lines 308-351; [None] when the fetch loop outlives [fuel]. *)
Definition run (cfg : Config) (env : Env) (fuel : nat) : M (option unit) :=
  cache <- load_cache env ;;
  predefined_categories <- load_categories env ;;
  _ <- lift (match predefined_categories with
             | Some catalog => cat_names (get (catalog_categories catalog) [])
             | None => Ok []
             end) ;;
  fetched <- fetch_github_stars env fuel ;;
  match fetched with
  | None => ret None
  | Some stars =>
      cache <- process_new_stars cfg env stars cache predefined_categories ;;
      save_cache cfg env cache ;;;
      generate_readme cfg env cache ;;;
      ret (Some tt)
  end.

(** Lines 393-406: the process's exit code, [None] while still fetching.
    [sys.exit(1)] passes through [except Exception]; every other exception
    is reported and turned into exit code 1. *)
Definition main (cfg : Config) (env : Env) (fuel : nat) (w : World)
    : World * option Z :=
  match (env' <- init env cfg ;; run cfg env' fuel) w with
  | (w', Ok (Some _)) => (w', Some 0)
  | (w', Ok None) => (w', None)
  | (w', Raise (SystemExit code)) => (w', Some code)
  | (w', Raise _) => (w', Some 1)
  end.

(* ================================================================= *)
(** ** Wording of the specification, kept apart from the code *)

(** The specification's fallback category: the language label, or
    ["Other"] when the item has none. *)
Definition spec_fallback_category (repo : Repo) : string :=
  match repo_language repo with
  | Some (Some label) => if String.eqb label "" then "Other" else label
  | _ => "Other"
  end.

(** The specification's anchor: lower-cased, spaces removed, [/] and [&]
    stripped. *)
Definition spec_anchor (lower : string -> string) (category : string)
    : string :=
  replace "&" "" (replace "/" "" (replace " " "" (lower category))).

(** What the code does to the lower-cased label, one character at a time:
    a space becomes a hyphen, [/] and [&] disappear, every other character
    stays. *)
Fixpoint hyphenated (lowered : string) : string :=
  match lowered with
  | EmptyString => EmptyString
  | String c rest =>
      if Ascii.eqb c " " then String "-" (hyphenated rest)
      else if (Ascii.eqb c "/" || Ascii.eqb c "&")%bool then hyphenated rest
      else String c (hyphenated rest)
  end.

(* ================================================================= *)
(** ** Vocabulary of the statements *)

(** The identifiers announced by "Processing new star", oldest first: one
    per call of the Classifier. *)
Definition classified (out : list Event) : list string :=
  flat_map (fun ev => match ev with
                      | PrintProcessing name => [name]
                      | _ => []
                      end) out.

(** The popularity the fetched list carries for [name]: that of its last
    item with this identifier. *)
Fixpoint fetched_count (name : string) (stars : list Repo) : option Z :=
  match stars with
  | [] => None
  | repo :: rest =>
      match fetched_count name rest with
      | Some count => Some count
      | None =>
          match repo_full_name repo with
          | Some name' =>
              if String.eqb name name' then repo_stargazers_count repo
              else None
          | None => None
          end
      end
  end.

(** The identifiers of the fetched items that [cache] does not hold, in
    fetch order. *)
Fixpoint absent_ids (stars : list Repo) (cache : Cache) : list string :=
  match stars with
  | [] => []
  | repo :: rest =>
      match repo_full_name repo with
      | Some name =>
          if mem name cache then absent_ids rest cache
          else name :: absent_ids rest cache
      | None => absent_ids rest cache
      end
  end.

(** A fetched item as the GitHub API sends it: identifier, popularity and
    URL are there. *)
Definition wf_repo (repo : Repo) : Prop :=
  repo_full_name repo <> None /\
  repo_stargazers_count repo <> None /\
  repo_html_url repo <> None.

(** A cache as the script writes it: a dict (no key twice) whose entries
    carry a popularity count. *)
Definition has_stars (kv : string * Entry) : Prop :=
  entry_stars (snd kv) <> None.

Definition wf_cache (cache : Cache) : Prop :=
  NoDup (keys cache) /\ Forall has_stars cache.

(** A catalog whose categories all have a name. *)
Definition wf_catalog (predefined_categories : option Catalog) : Prop :=
  match predefined_categories with
  | Some {| catalog_categories := Some cats |} =>
      Forall (fun cat => cat_name cat <> None) cats
  | _ => True
  end.

(** An identifier of the form [owner/name]. *)
Definition has_slash (name : string) : bool :=
  existsb (Ascii.eqb "/") (list_ascii_of_string name).

(** A cache the renderer accepts: every key has the form [owner/name] and
    every entry carries category, description, url and stars. *)
Definition renderable (cache : Cache) : Prop :=
  Forall (fun kv =>
            has_slash (fst kv) = true /\
            entry_category (snd kv) <> None /\
            entry_description (snd kv) <> None /\
            entry_url (snd kv) <> None /\
            entry_stars (snd kv) <> None) cache.

(** Descending order of popularity. *)
Definition descending (items : list Item) : Prop :=
  Sorted (fun a b => item_stars b <= item_stars a) items.

(** The items of a list with popularity [count], in the list's order. *)
Definition with_stars (count : Z) (items : list Item) : list Item :=
  filter (fun item => item_stars item =? count) items.

(** The number of entries of [cache] whose category is [category]. *)
Definition count_in (category : string) (cache : Cache) : nat :=
  List.length (filter (fun kv => match entry_category (snd kv) with
                                 | Some c => String.eqb c category
                                 | None => false
                                 end) cache).

(** The prompt [categorize_with_llm] sends for an item (lines 121-173). *)
Definition prompt_of (repo : Repo) (predefined_categories : option Catalog)
    : result string :=
  Py.bind (getitem "full_name" (repo_full_name repo)) (fun repo_name =>
  build_prompt repo_name
    (get (repo_description repo) (Some "No description provided"))
    (join ", " (get (repo_topics repo) []))
    (get (repo_language repo) (Some "Unknown"))
    (get (repo_stargazers_count repo) 0)
    predefined_categories).

(** An entry after the fetched list has been seen: its popularity is the
    count fetched for it, if one was. *)
Definition refresh (e : Entry) (fetched : option Z) : Entry :=
  match fetched with
  | Some count => set_stars e count
  | None => e
  end.

Definition bump_new (n : Counters) : Counters :=
  {| new_count := new_count n + 1; updated_count := updated_count n;
     processed_new := processed_new n |}.

Definition bump_updated (n : Counters) : Counters :=
  {| new_count := new_count n; updated_count := updated_count n + 1;
     processed_new := processed_new n |}.

Definition bump_processed (n : Counters) : Counters :=
  {| new_count := new_count n + 1; updated_count := updated_count n;
     processed_new := processed_new n + 1 |}.

Definition announce (name : string) (w : World) : World :=
  {| clock := clock w; stdout := stdout w ++ [PrintProcessing name];
     files := files w |}.

(** The ways one iteration of the reconciliation loop can go. *)
Inductive iteration (cfg : Config) (env : Env) (cats : option Catalog)
    (cache : Cache) (n : Counters) (repo : Repo) (w : World)
    : World -> result (Cache * Counters) -> Prop :=
| it_key_error e :
    repo_full_name repo = None \/
    (exists name entry,
        repo_full_name repo = Some name /\ lookup name cache = Some entry /\
        (entry_stars entry = None \/ repo_stargazers_count repo = None)) ->
    iteration cfg env cats cache n repo w w (Raise e)
| it_unchanged name entry count :
    repo_full_name repo = Some name -> lookup name cache = Some entry ->
    entry_stars entry = Some count -> repo_stargazers_count repo = Some count ->
    iteration cfg env cats cache n repo w w (Ok (cache, n))
| it_updated name entry stored fetched :
    repo_full_name repo = Some name -> lookup name cache = Some entry ->
    entry_stars entry = Some stored ->
    repo_stargazers_count repo = Some fetched -> stored <> fetched ->
    iteration cfg env cats cache n repo w w
      (Ok (setitem name (set_stars entry fetched) cache, bump_updated n))
| it_deferred name :
    repo_full_name repo = Some name -> lookup name cache = None ->
    limit_reached cfg (processed_new n) = true ->
    iteration cfg env cats cache n repo w w (Ok (cache, bump_new n))
| it_classified name w' entry :
    repo_full_name repo = Some name -> lookup name cache = None ->
    limit_reached cfg (processed_new n) = false ->
    categorize_with_llm env repo cats (announce name w) = (w', Ok entry) ->
    iteration cfg env cats cache n repo w w'
      (Ok (setitem name entry cache, bump_processed n))
| it_classifier_raised name w' e :
    repo_full_name repo = Some name -> lookup name cache = None ->
    limit_reached cfg (processed_new n) = false ->
    categorize_with_llm env repo cats (announce name w) = (w', Raise e) ->
    iteration cfg env cats cache n repo w w' (Raise e).

(** The cache a result carries, if any. *)
Definition cache_of {S} (proj : S -> Cache) (r : result S) : option Cache :=
  match r with
  | Ok s => Some (proj s)
  | Raise _ => None
  end.

(** How a piece of the reconciliation may move the console and the cache:
    it only appends lines, announces each identifier at most once and only
    identifiers the cache did not hold, touches no file, and on completion
    has appended exactly the announced identifiers to the cache's keys. *)
Definition extends (cache : Cache) (w w' : World) (after : option Cache) : Prop :=
  exists out,
    stdout w' = stdout w ++ out /\
    files w' = files w /\
    NoDup (classified out) /\
    (forall name, In name (classified out) -> lookup name cache = None) /\
    (forall cache', after = Some cache' ->
       keys cache' = keys cache ++ classified out).

(** The environment [__init__] leaves for the run started in the world
    [w]: the process environment, with [./.env] merged in when the file
    exists. *)
Definition effective (env : Env) (w : World) : Env :=
  match lookup dotenv_file (files w) with
  | Some content => load_dotenv env content
  | None => env
  end.

(** The world after one more printed line. *)
Definition say (ev : Event) (w : World) : World :=
  {| clock := clock w; stdout := stdout w ++ [ev]; files := files w |}.

(** The counters at the start of the loop (lines 212-214). *)
Definition no_counts : Counters :=
  {| new_count := 0; updated_count := 0; processed_new := 0 |}.

(** The line printed after the loop (lines 239-243). *)
Definition summary (cfg : Config) (n : Counters) : Event :=
  if (dry_run cfg && truthy_int (limit cfg)
      && (processed_new n <? new_count n))%bool
  then PrintDryRunSummary (processed_new n) (new_count n) (get (limit cfg) 0)
         (new_count n - processed_new n)
  else PrintSummary (new_count n) (updated_count n).

(* ================================================================= *)
(** ** Sample inputs *)

Module Sample.

(** A remote service that fails on its first call and answers afterwards. *)
Definition env : Env :=
  {| imports_ok := true;
     GITHUB_TOKEN := Some "token";
     ANTHROPIC_API_KEY := Some "key";
     GITHUB_USERNAME := None;
     dotenv_values := fun _ _ => None;
     str_lower := ascii_lower;
     messages_create := fun n _ =>
       if Nat.eqb n 0 then None else Some ("Tools", "A useful tool.");
     utcnow_isoformat := fun _ => "2024-05-01T12:00:00";
     utcnow_strftime := fun _ => "2024-05-01 12:00 UTC";
     requests_get := fun _ _ _ => {| status_code := 200; response_json := [] |};
     json_load := fun _ => None;
     json_dump := fun _ => "{}";
     yaml_safe_load := fun _ => Some None |}.

Definition world : World := {| clock := 0; stdout := []; files := [] |}.

(** An item as GitHub sends it, without description. *)
Definition repo (name : string) (language : option string) (count : Z) : Repo :=
  {| repo_full_name := Some name;
     repo_description := Some None;
     repo_topics := Some [];
     repo_language := Some language;
     repo_stargazers_count := Some count;
     repo_html_url := Some (fstr ["https://github.com/"; name]) |}.

(** An item whose JSON object has no [language] and no [description] key. *)
Definition bare_repo : Repo :=
  {| repo_full_name := Some "octo/bare";
     repo_description := None;
     repo_topics := None;
     repo_language := None;
     repo_stargazers_count := Some 7;
     repo_html_url := Some "https://github.com/octo/bare" |}.

Definition entry (category : string) (count : Z) : Entry :=
  {| entry_category := Some category;
     entry_description := Some "A useful tool.";
     entry_url := Some "https://example.org";
     entry_stars := Some count;
     entry_language := Some (Some "Python");
     entry_processed_at := Some "2024-01-01T00:00:00" |}.

Definition five : list Repo :=
  [repo "o/a" None 1; repo "o/b" None 2; repo "o/c" None 3;
   repo "o/d" None 4; repo "o/e" None 5].

Definition cached : Cache := [("o/a", entry "Tools" 10)].

(** A cache with one category holding popularity 5, 20, 20 and 1. *)
Definition ties : Cache :=
  [("o/five", entry "Tools" 5); ("o/first", entry "Tools" 20);
   ("o/second", entry "Tools" 20); ("o/one", entry "Tools" 1)].

(** The value of a computation that is known to succeed. *)
Definition value {A} (default : A) (r : result A) : A :=
  match r with
  | Ok a => a
  | Raise _ => default
  end.

Definition cfg_preview_3 : Config := {| dry_run := true; limit := Some 3 |}.
Definition cfg_plain : Config := {| dry_run := false; limit := None |}.

End Sample.

(** The item line 260 builds from one cache entry, when the entry has the
    four keys it reads. *)
Definition to_item (kv : string * Entry) : option Item :=
  match entry_category (snd kv), entry_url (snd kv),
        entry_description (snd kv), entry_stars (snd kv) with
  | Some _, Some url, Some description, Some stars =>
      Some {| item_name := fst kv; item_url := url;
              item_description := description; item_stars := stars;
              item_language := get (entry_language (snd kv)) (Some "") |}
  | _, _, _, _ => None
  end.

(** The items of the entries filed under [category], in the cache's
    order. *)
Definition members (category : string) (cache : list (string * Entry))
    : list Item :=
  flat_map (fun kv =>
              match entry_category (snd kv), to_item kv with
              | Some c, Some item =>
                  if String.eqb category c then [item] else []
              | _, _ => []
              end) cache.

(** The text of one category's section (lines 287-293). *)
Definition section_text (category lines : string) : string :=
  fstr ["## "; category; nl; nl; lines; nl].


(* ================================================================= *)
(** ** Vocabulary of the further properties *)

(** The starred-items endpoint serves [pages], none of them empty, with
    status 200: the request made at interaction [n] for page [page] answers
    the first, the next one the second, and so on. *)
Fixpoint served (env : Env) (url : string) (n : nat) (page : Z)
    (pages : list (list Repo)) : Prop :=
  match pages with
  | [] => True
  | page_stars :: rest =>
      requests_get env n url page
        = {| status_code := 200; response_json := page_stars |} /\
      page_stars <> [] /\
      served env url (S n) (page + 1) rest
  end.

(** The world after [k] more interactions. *)
Definition later (k : nat) (w : World) : World :=
  {| clock := k + clock w; stdout := stdout w; files := files w |}.

(** An entry that has the four keys the renderer indexes. *)
Definition complete (kv : string * Entry) : Prop :=
  entry_category (snd kv) <> None /\
  entry_description (snd kv) <> None /\
  entry_url (snd kv) <> None /\
  entry_stars (snd kv) <> None.

(** The first of the keys the renderer indexes that an entry lacks, in the
    order lines 257-264 read them. *)
Definition first_missing (data : Entry) : option string :=
  match entry_category data, entry_url data, entry_description data,
        entry_stars data with
  | None, _, _, _ => Some "category"
  | Some _, None, _, _ => Some "url"
  | Some _, Some _, None, _ => Some "description"
  | Some _, Some _, Some _, None => Some "stars"
  | Some _, Some _, Some _, Some _ => None
  end.

(** The run, started in [w], has loaded its cache and its catalog, fetched
    the starred items and reconciled them into [cache'], reaching [w2]. *)
Definition reconciled (cfg : Config) (env : Env) (fuel : nat) (w w2 : World)
    (cache' : Cache) : Prop :=
  exists cache cats stars w1,
    load_cache env w = (w, Ok cache) /\
    load_categories env w = (w, Ok cats) /\
    fetch_github_stars env fuel w = (w1, Ok (Some stars)) /\
    process_new_stars cfg env stars cache cats w1 = (w2, Ok cache').

(** The document of lines 274-296 around its table of contents and its
    sections, showing [total] as the number of repositories. *)
Definition layout (now : string) (total : nat) (contents body : string)
    : string :=
  fstr [
    "# My Awesome List"; nl; nl;
    "> A curated list of my GitHub stars, automatically organized and described by AI 🤖";
    nl; nl;
    "*Last updated: "; now; " | Total repos: ";
    str_int (Z.of_nat total); "*"; nl; nl;
    "## Contents"; nl; nl;
    contents;
    nl; "---"; nl; nl;
    body;
    "---"; nl; nl;
    "*Generated automatically by [MyAwsomeList](https://github.com/felixscode/MyAwsomeList) using Claude API*";
    nl].

(** A table of contents with one line per label, showing these counts. *)
Definition contents_text (lower : string -> string) (labels : list string)
    (counts : list nat) : string :=
  fstr (map (fun line => toc_line lower (fst line) (snd line))
          (combine labels counts)).

(** The sections of these labels, each with its lines. *)
Definition body_text (labels lines : list string) : string :=
  fstr (map (fun s => section_text (fst s) (snd s)) (combine labels lines)).

(** Strictly ascending order of labels. *)
Definition ascending (labels : list string) : Prop :=
  Sorted (fun a b => String.ltb a b = true) labels.

(** The sum of the entry counts the table of contents shows. *)
Definition toc_total (sorted_categories : list string) (cache : Cache) : nat :=
  fold_right (fun category total => (count_in category cache + total)%nat)
    O sorted_categories.

(** More sample inputs. *)
Module Probe.

(** A starred-items endpoint with two pages, and a JSON codec that reads
    back the one cache it is asked to write. *)
Definition env : Env :=
  {| imports_ok := true;
     GITHUB_TOKEN := Some "token";
     ANTHROPIC_API_KEY := Some "key";
     GITHUB_USERNAME := Some "octo";
     dotenv_values := fun _ _ => None;
     str_lower := ascii_lower;
     messages_create := fun _ _ => Some ("Tools", "A useful tool.");
     utcnow_isoformat := fun _ => "2024-05-01T12:00:00";
     utcnow_strftime := fun _ => "2024-05-01 12:00 UTC";
     requests_get := fun _ _ page =>
       if page =? 1 then
         {| status_code := 200;
            response_json := [Sample.repo "o/a" None 1; Sample.repo "o/b" None 2] |}
       else if page =? 2 then
         {| status_code := 200; response_json := [Sample.repo "o/c" None 3] |}
       else {| status_code := 200; response_json := [] |};
     json_load := fun _ => Some Sample.cached;
     json_dump := fun _ => "{}";
     yaml_safe_load := fun _ => Some None |}.

(** The same endpoint, failing on its second page. *)
Definition failing_env : Env :=
  {| imports_ok := true;
     GITHUB_TOKEN := Some "token";
     ANTHROPIC_API_KEY := Some "key";
     GITHUB_USERNAME := Some "octo";
     dotenv_values := fun _ _ => None;
     str_lower := ascii_lower;
     messages_create := fun _ _ => None;
     utcnow_isoformat := fun _ => "2024-05-01T12:00:00";
     utcnow_strftime := fun _ => "2024-05-01 12:00 UTC";
     requests_get := fun _ _ page =>
       if page =? 1 then
         {| status_code := 200;
            response_json := [Sample.repo "o/a" None 1] |}
       else {| status_code := 502; response_json := [] |};
     json_load := fun _ => None;
     json_dump := fun _ => "{}";
     yaml_safe_load := fun _ => Some None |}.

(** An environment without the GitHub token. *)
Definition no_token_env : Env :=
  {| imports_ok := true;
     GITHUB_TOKEN := None;
     ANTHROPIC_API_KEY := Some "key";
     GITHUB_USERNAME := None;
     dotenv_values := fun _ _ => None;
     str_lower := ascii_lower;
     messages_create := fun _ _ => None;
     utcnow_isoformat := fun _ => "";
     utcnow_strftime := fun _ => "";
     requests_get := fun _ _ _ => {| status_code := 200; response_json := [] |};
     json_load := fun _ => None;
     json_dump := fun _ => "{}";
     yaml_safe_load := fun _ => Some None |}.

(** An environment without credentials, whose [.env] file holds the
    GitHub token and nothing else, and a world with such a file. *)
Definition dotenv_env : Env :=
  {| imports_ok := true;
     GITHUB_TOKEN := None;
     ANTHROPIC_API_KEY := None;
     GITHUB_USERNAME := None;
     dotenv_values := fun content name =>
       if String.eqb name "GITHUB_TOKEN" then Some content else None;
     str_lower := ascii_lower;
     messages_create := fun _ _ => None;
     utcnow_isoformat := fun _ => "";
     utcnow_strftime := fun _ => "";
     requests_get := fun _ _ _ => {| status_code := 200; response_json := [] |};
     json_load := fun _ => None;
     json_dump := fun _ => "{}";
     yaml_safe_load := fun _ => Some None |}.

Definition dotenv_world : World :=
  {| clock := 0; stdout := []; files := [(dotenv_file, "ghp_token")] |}.

(** An item without URL, one without popularity count. *)
Definition no_url : Repo :=
  {| repo_full_name := Some "octo/nourl";
     repo_description := Some (Some "No link.");
     repo_topics := Some ["a"; "b"];
     repo_language := Some (Some "Go");
     repo_stargazers_count := Some 3;
     repo_html_url := None |}.

Definition no_count : Repo :=
  {| repo_full_name := Some "octo/nocount";
     repo_description := Some None;
     repo_topics := None;
     repo_language := Some None;
     repo_stargazers_count := None;
     repo_html_url := Some "https://github.com/octo/nocount" |}.

(** A catalog with a category that has no name. *)
Definition nameless : option Catalog :=
  Some {| catalog_categories :=
            Some [ {| cat_name := Some "Tools"; cat_description := None |};
                   {| cat_name := None; cat_description := Some "?" |} ] |}.

(** A cache with a key that is not of the form [owner/name]. *)
Definition flat_key : Cache :=
  [("o/a", Sample.entry "Tools" 10); ("orphan", Sample.entry "Tools" 2)].

Definition cfg_preview : Config := {| dry_run := true; limit := None |}.

(** A cache with three categories, one of them with a space, a [/] and an
    [&] in its label. *)
Definition mixed : Cache :=
  [("o/a", Sample.entry "Web Dev" 3); ("o/b", Sample.entry "Tools" 5);
   ("o/c", Sample.entry "Web Dev" 7); ("o/d", Sample.entry "AI/ML & Data" 1)].

(** Its categories in section order and its sorted grouping. *)
Definition mixed_labels : list string :=
  fst (Sample.value ([], []) (organize mixed)).

Definition mixed_groups : dict (list Item) :=
  snd (Sample.value ([], []) (organize mixed)).

(** An entry without [url]. *)
Definition no_url_entry : Entry :=
  {| entry_category := Some "Tools";
     entry_description := Some "A useful tool.";
     entry_url := None;
     entry_stars := Some 1;
     entry_language := None;
     entry_processed_at := None |}.

End Probe.

(* ================================================================= *)
(** ** Dicts *)

Section DictFacts.
Context {V : Type}.
Implicit Types (d : dict V) (k : string) (v : V).

Lemma lookup_None_keys k d : lookup k d = None <-> ~ In k (keys d).
Proof.
  induction d as [|[k' v'] d IH]; simpl.
  - tauto.
  - destruct (String.eqb_spec k k') as [->|Hne].
    + split; [discriminate | intros H; exfalso; apply H; now left].
    + rewrite IH. split.
      * intros H [E|E]; [congruence | auto].
      * intros H E. apply H. now right.
Qed.

Lemma lookup_Some_keys k d v : lookup k d = Some v -> In k (keys d).
Proof.
  intros H. destruct (in_dec string_dec k (keys d)) as [|Hn]; [assumption|].
  apply lookup_None_keys in Hn. congruence.
Qed.

Lemma lookup_In k d v : lookup k d = Some v -> In (k, v) d.
Proof.
  induction d as [|[k' v'] d IH]; simpl; [discriminate|].
  destruct (String.eqb_spec k k') as [->|Hne].
  - intros [= ->]. now left.
  - intros H. right. auto.
Qed.

Lemma lookup_setitem_same k v d : lookup k (setitem k v d) = Some v.
Proof.
  induction d as [|[k' v'] d IH]; simpl.
  - now rewrite String.eqb_refl.
  - destruct (String.eqb_spec k k') as [->|Hne]; simpl.
    + now rewrite String.eqb_refl.
    + destruct (String.eqb_spec k k'); [contradiction | assumption].
Qed.

Lemma lookup_setitem_other k k' v d :
  k <> k' -> lookup k' (setitem k v d) = lookup k' d.
Proof.
  intros Hne. induction d as [|[k0 v0] d IH]; simpl.
  - destruct (String.eqb_spec k' k); [congruence | reflexivity].
  - destruct (String.eqb_spec k k0) as [->|Hk]; simpl.
    + destruct (String.eqb_spec k' k0); [congruence | reflexivity].
    + now rewrite IH.
Qed.

Lemma keys_setitem_present k v v0 d :
  lookup k d = Some v0 -> keys (setitem k v d) = keys d.
Proof.
  induction d as [|[k' v'] d IH]; simpl; [discriminate|].
  destruct (String.eqb_spec k k') as [->|Hne]; simpl.
  - reflexivity.
  - intros H. f_equal. auto.
Qed.

Lemma keys_setitem_absent k v d :
  lookup k d = None -> keys (setitem k v d) = keys d ++ [k].
Proof.
  induction d as [|[k' v'] d IH]; simpl; [reflexivity|].
  destruct (String.eqb_spec k k') as [->|Hne]; simpl.
  - discriminate.
  - intros H. f_equal. auto.
Qed.

Lemma length_setitem_present k v v0 d :
  lookup k d = Some v0 -> List.length (setitem k v d) = List.length d.
Proof.
  intros H. apply (keys_setitem_present k v) in H.
  unfold keys in H. apply (f_equal (@List.length _)) in H.
  now rewrite !length_map in H.
Qed.

(** Two dicts with the same keys in the same order and the same value
    under every key are equal. *)
Lemma dict_ext d d' :
  keys d = keys d' -> NoDup (keys d) ->
  (forall k, lookup k d = lookup k d') -> d = d'.
Proof.
  revert d'. induction d as [|[k v] d IH]; intros [|[k' v'] d'] Hk Hnd Hl;
    simpl in *; try discriminate; [reflexivity|].
  injection Hk as -> Hk. inversion Hnd as [|? ? Hnin Hnd']; subst.
  pose proof (Hl k') as Hh. rewrite String.eqb_refl in Hh.
  injection Hh as ->. f_equal. apply IH; auto.
  intros k0. specialize (Hl k0).
  destruct (String.eqb_spec k0 k') as [E|Hne]; [subst k0|assumption].
  assert (Hnin' : ~ In k' (keys d')) by now rewrite <- Hk.
  apply lookup_None_keys in Hnin, Hnin'. congruence.
Qed.

End DictFacts.

(* ================================================================= *)
(** ** The Classifier *)

Lemma classified_app out out' :
  classified (out ++ out') = classified out ++ classified out'.
Proof. unfold classified. now rewrite flat_map_app. Qed.

Lemma category_details_total cats :
  Forall (fun cat => cat_name cat <> None) cats ->
  exists details, category_details cats = Ok details.
Proof.
  induction 1 as [|cat cats Hc _ [details IH]]; simpl.
  - now eexists.
  - destruct (cat_name cat) as [name|]; [|congruence]. simpl.
    rewrite IH. simpl. now eexists.
Qed.

Lemma build_prompt_total repo_name description topics language stars cats :
  wf_catalog cats ->
  exists prompt,
    build_prompt repo_name description topics language stars cats = Ok prompt.
Proof.
  unfold wf_catalog, build_prompt. destruct cats as [[[cats|]]|]; intros H;
    try now eexists.
  destruct (category_details_total cats H) as [details ->]. simpl.
  now eexists.
Qed.

(** What the Classifier leaves alone: it only appends lines, none of them
    announcing an item, and writes no file. *)
Lemma categorize_with_llm_frame env repo cats w w' r :
  categorize_with_llm env repo cats w = (w', r) ->
  exists out,
    stdout w' = stdout w ++ out /\ classified out = [] /\ files w' = files w.
Proof.
  unfold categorize_with_llm. unfold_M.
  destruct (repo_full_name repo) as [name|]; simpl;
    [|intros [= <- <-]; exists []; now rewrite app_nil_r].
  destruct (build_prompt _ _ _ _ _ _) as [prompt|e]; simpl;
    [|intros [= <- <-]; exists []; now rewrite app_nil_r].
  destruct (messages_create env (clock w) prompt) as [[category text]|];
    destruct (repo_html_url repo) as [url|]; simpl;
    intros [= <- <-]; simpl;
    first [ now exists [PrintError name]
          | exists []; now rewrite app_nil_r ].
Qed.

(** The entry a completed classification returns. *)
Lemma categorize_with_llm_entry env repo cats w w' e :
  categorize_with_llm env repo cats w = (w', Ok e) ->
  entry_stars e = Some (get (repo_stargazers_count repo) 0) /\
  entry_category e <> None /\ entry_description e <> None /\
  entry_url e <> None /\ entry_url e = repo_html_url repo.
Proof.
  unfold categorize_with_llm. unfold_M.
  destruct (repo_full_name repo) as [name|]; simpl; [|discriminate].
  destruct (build_prompt _ _ _ _ _ _) as [prompt|e']; simpl; [|discriminate].
  destruct (messages_create env (clock w) prompt) as [[category text]|];
    destruct (repo_html_url repo) as [url|]; simpl;
    intros [= <- <-]; simpl; repeat split; congruence.
Qed.

Lemma categorize_with_llm_total env repo cats w :
  repo_full_name repo <> None -> repo_html_url repo <> None ->
  wf_catalog cats ->
  exists w' e, categorize_with_llm env repo cats w = (w', Ok e).
Proof.
  intros Hn Hu Hc. unfold categorize_with_llm. unfold_M.
  destruct (repo_full_name repo) as [name|]; [|congruence]. simpl.
  destruct (build_prompt_total name
              (get (repo_description repo) (Some "No description provided"))
              (join ", " (get (repo_topics repo) []))
              (get (repo_language repo) (Some "Unknown"))
              (get (repo_stargazers_count repo) 0) cats Hc) as [prompt ->].
  simpl.
  destruct (messages_create env (clock w) prompt) as [[category text]|];
    destruct (repo_html_url repo) as [url|]; simpl;
    try congruence; now do 2 eexists.
Qed.

Lemma process_repo_iteration cfg env cats cache n repo w w' r :
  process_repo cfg env cats (cache, n) repo w = (w', r) ->
  iteration cfg env cats cache n repo w w' r.
Proof.
  unfold process_repo. unfold_M.
  destruct (repo_full_name repo) as [name|] eqn:Hname; simpl.
  2:{ intros [= <- <-]. constructor. now left. }
  destruct (lookup name cache) as [entry|] eqn:Hl.
  - destruct (entry_stars entry) as [stored|] eqn:Hs; simpl.
    2:{ intros [= <- <-]. constructor. right. exists name, entry. auto. }
    destruct (repo_stargazers_count repo) as [fetched|] eqn:Hf; simpl.
    2:{ intros [= <- <-]. constructor. right. exists name, entry. auto. }
    destruct (Z.eqb_spec stored fetched) as [->|Hne]; simpl;
      intros [= <- <-].
    + eapply it_unchanged; eauto.
    + eapply it_updated; eauto.
  - destruct (limit_reached cfg (processed_new n)) eqn:Hlim.
    + intros [= <- <-]. eapply it_deferred; eauto.
    + simpl.
      destruct (categorize_with_llm env repo cats _) as [w1 [entry|e]] eqn:Hc;
        intros [= <- <-].
      * eapply it_classified; eauto.
      * eapply it_classifier_raised; eauto.
Qed.

(* ================================================================= *)
(** ** The reconciliation loop *)

Lemma for_each_cons {A S} (body : S -> A -> M S) x l s w :
  for_each body (x :: l) s w =
  match body s x w with
  | (w1, Ok s1) => for_each body l s1 w1
  | (w1, Raise e) => (w1, Raise e)
  end.
Proof. reflexivity. Qed.

Lemma in_classified name out :
  In name (classified out) <-> In (PrintProcessing name) out.
Proof.
  unfold classified. rewrite in_flat_map. split.
  - intros [ev [Hin Hev]]. destruct ev; simpl in Hev; try contradiction.
    destruct Hev as [->|[]]. assumption.
  - intros H. exists (PrintProcessing name). split; [assumption | now left].
Qed.

Lemma extends_refl cache w : extends cache w w (Some cache).
Proof.
  exists []. simpl. rewrite !app_nil_r. repeat split; auto.
  - constructor.
  - contradiction.
  - now intros ? [= <-].
Qed.

Lemma extends_raise cache w : extends cache w w None.
Proof.
  exists []. simpl. rewrite !app_nil_r. repeat split; auto.
  - constructor.
  - contradiction.
  - discriminate.
Qed.

Lemma extends_trans cache w cache1 w1 w' after :
  extends cache w w1 (Some cache1) -> extends cache1 w1 w' after ->
  extends cache w w' after.
Proof.
  intros (out1 & Ho1 & Hf1 & Hnd1 & Hnew1 & Hk1)
         (out2 & Ho2 & Hf2 & Hnd2 & Hnew2 & Hk2).
  specialize (Hk1 _ eq_refl).
  assert (Hdisj : forall name, In name (classified out1) ->
                               ~ In name (classified out2)).
  { intros name H1 H2. apply Hnew2 in H2. apply lookup_None_keys in H2.
    apply H2. rewrite Hk1. apply in_or_app. now right. }
  exists (out1 ++ out2). rewrite classified_app. repeat split.
  - now rewrite Ho2, Ho1, app_assoc.
  - congruence.
  - clear - Hnd1 Hnd2 Hdisj. induction Hnd1 as [|x l Hx _ IH]; simpl; auto.
    constructor.
    + intros H. apply in_app_or in H as [H|H]; [contradiction|].
      apply (Hdisj x); [now left | assumption].
    + apply IH. intros name H. apply Hdisj. now right.
  - intros name H. apply in_app_or in H as [H|H]; [auto|].
    apply Hnew2 in H. apply lookup_None_keys in H.
    apply lookup_None_keys. intros Hin. apply H. rewrite Hk1.
    apply in_or_app. now left.
  - intros cache' E. rewrite (Hk2 _ E), Hk1. now rewrite app_assoc.
Qed.

(** One iteration extends the cache. *)
Lemma iteration_extends cfg env cats cache n repo w w' r :
  iteration cfg env cats cache n repo w w' r ->
  extends cache w w' (cache_of fst r).
Proof.
  destruct 1 as [e _|name entry count _ _ _ _|name entry s f _ Hl _ _ _
                 |name _ _ _|name w' entry _ Hl _ Hc|name w' e _ Hl _ Hc]; simpl.
  - apply extends_raise.
  - apply extends_refl.
  - exists []. simpl. rewrite app_nil_r. repeat split; auto.
    + constructor.
    + contradiction.
    + intros ? [= <-]. rewrite app_nil_r.
      eapply keys_setitem_present; eauto.
  - apply extends_refl.
  - apply categorize_with_llm_frame in Hc as (out & Ho & Hcl & Hfi).
    simpl in *. exists (PrintProcessing name :: out). simpl. rewrite Hcl.
    repeat split.
    + now rewrite Ho, <- app_assoc.
    + assumption.
    + constructor; [intros [] | constructor].
    + now intros ? [<-|[]].
    + intros ? [= <-]. now apply keys_setitem_absent.
  - apply categorize_with_llm_frame in Hc as (out & Ho & Hcl & Hfi).
    simpl in *. exists (PrintProcessing name :: out). simpl. rewrite Hcl.
    repeat split.
    + now rewrite Ho, <- app_assoc.
    + assumption.
    + constructor; [intros [] | constructor].
    + now intros ? [<-|[]].
    + discriminate.
Qed.

(** Every run of the loop extends the cache, whether it completes or
    raises. *)
Lemma for_each_extends cfg env cats stars cache n w w' r :
  for_each (process_repo cfg env cats) stars (cache, n) w = (w', r) ->
  extends cache w w' (cache_of fst r).
Proof.
  revert cache n w. induction stars as [|repo stars IH]; intros cache n w.
  - simpl. unfold ret. intros [= <- <-]. apply extends_refl.
  - rewrite for_each_cons.
    destruct (process_repo cfg env cats (cache, n) repo w) as [w1 r1] eqn:Hs.
    apply process_repo_iteration, iteration_extends in Hs.
    destruct r1 as [[cache1 n1]|e]; simpl in Hs.
    + intros H. apply IH in H. eapply extends_trans; eauto.
    + intros [= <- <-]. exact Hs.
Qed.

Lemma process_new_stars_extends cfg env stars cache cats w w' r :
  process_new_stars cfg env stars cache cats w = (w', r) ->
  extends cache w w' (cache_of id r).
Proof.
  unfold process_new_stars. unfold bindM at 1.
  destruct (for_each _ _ _ _) as [w1 [[cache1 n1]|e]] eqn:Hl;
    apply for_each_extends in Hl; simpl in Hl.
  2:{ intros [= <- <-]. exact Hl. }
  intros H. eapply extends_trans; [exact Hl|].
  revert H. unfold_M.
  destruct (_ && _ && _)%bool; simpl; intros [= <- <-]; simpl;
    eexists [_]; simpl; repeat split; auto; try constructor;
    try contradiction; intros ? [= <-]; now rewrite app_nil_r.
Qed.

(** *** What happens to an entry the cache already holds *)

Lemma set_stars_same e count :
  entry_stars e = Some count -> set_stars e count = e.
Proof. destruct e; simpl; intros ->; reflexivity. Qed.

Lemma refresh_refresh e first later :
  refresh (refresh e first) later =
  refresh e (match later with Some c => Some c | None => first end).
Proof. destruct later, first; reflexivity. Qed.

Lemma iteration_entry cfg env cats cache n repo w w' cache' n' name e :
  iteration cfg env cats cache n repo w w' (Ok (cache', n')) ->
  lookup name cache = Some e ->
  lookup name cache' = Some (refresh e (fetched_count name [repo])).
Proof.
  intros Hit Hl. simpl.
  inversion Hit as [|k entry count Hk Hlk Hs Hf|k entry s f Hk Hlk Hs Hf Hne
                    |k Hk Hlk Hlim|k w1 entry Hk Hlk Hlim Hc|]; subst;
    rewrite Hk; destruct (String.eqb_spec name k) as [->|Hnk]; simpl;
    try congruence.
  - rewrite Hf. simpl. rewrite Hl. f_equal. symmetry.
    apply set_stars_same. congruence.
  - rewrite Hf. simpl. rewrite lookup_setitem_same. congruence.
  - rewrite lookup_setitem_other; congruence.
  - rewrite lookup_setitem_other; congruence.
Qed.

Lemma for_each_entry cfg env cats stars cache n w w' cache' n' name e :
  for_each (process_repo cfg env cats) stars (cache, n) w
    = (w', Ok (cache', n')) ->
  lookup name cache = Some e ->
  lookup name cache' = Some (refresh e (fetched_count name stars)).
Proof.
  revert cache n w e. induction stars as [|repo stars IH]; intros cache n w e.
  - simpl. unfold ret. intros [= <- <- <-]. auto.
  - rewrite for_each_cons.
    destruct (process_repo cfg env cats (cache, n) repo w)
      as [w1 [[cache1 n1]|ex]] eqn:Hs; [|discriminate].
    apply process_repo_iteration in Hs. intros Hloop Hl.
    pose proof (iteration_entry _ _ _ _ _ _ _ _ _ _ _ _ Hs Hl) as H1.
    rewrite (IH _ _ _ _ Hloop H1), refresh_refresh. reflexivity.
Qed.

Lemma fetched_count_in name stars count :
  fetched_count name stars = Some count ->
  In (Some name) (map repo_full_name stars).
Proof.
  induction stars as [|repo stars IH]; simpl; [discriminate|].
  destruct (fetched_count name stars) as [c|].
  - intros H. right. auto.
  - destruct (repo_full_name repo) as [name'|]; [|discriminate].
    destruct (String.eqb_spec name name') as [->|]; [|discriminate].
    intros _. now left.
Qed.

(** *** Completion on well-formed input *)

Lemma Forall_setitem (P : Entry -> Prop) k v (d : Cache) :
  Forall (fun kv => P (snd kv)) d -> P v ->
  Forall (fun kv => P (snd kv)) (setitem k v d).
Proof.
  intros Hd Hv. induction Hd as [|[k' v'] d Hx Hd IH]; simpl.
  - constructor; auto.
  - destruct (String.eqb k k'); constructor; auto.
Qed.

Lemma lookup_Forall (P : Entry -> Prop) k v (d : Cache) :
  Forall (fun kv => P (snd kv)) d -> lookup k d = Some v -> P v.
Proof.
  intros Hd Hl. apply lookup_In in Hl.
  rewrite Forall_forall in Hd. apply (Hd _ Hl).
Qed.

Lemma process_repo_total cfg env cats (cache : Cache) n repo w :
  wf_repo repo -> wf_catalog cats -> Forall has_stars cache ->
  exists w' cache' n',
    process_repo cfg env cats (cache, n) repo w = (w', Ok (cache', n')) /\
    Forall has_stars cache'.
Proof.
  intros (Hn & Hc & Hu) Hcat Hst.
  destruct (process_repo cfg env cats (cache, n) repo w) as [w' r] eqn:Hs.
  apply process_repo_iteration in Hs.
  inversion Hs as [e [H|(k & entry & Hk & Hl & [H|H])]
                   |k entry count Hk Hlk Hst' Hf|k entry s f Hk Hlk Hst' Hf Hne
                   |k Hk Hlk Hlim|k w1 entry Hk Hlk Hlim Hcl
                   |k w1 e Hk Hlk Hlim Hcl]; subst; try congruence.
  - exfalso. apply (lookup_Forall (fun e => entry_stars e <> None) _ _ _ Hst Hl H).
  - now do 3 eexists.
  - do 3 eexists. split; [reflexivity|].
    apply (Forall_setitem (fun e => entry_stars e <> None)); [assumption|].
    simpl. discriminate.
  - now do 3 eexists.
  - do 3 eexists. split; [reflexivity|].
    apply (Forall_setitem (fun e => entry_stars e <> None)); [assumption|].
    apply categorize_with_llm_entry in Hcl as [-> _]. discriminate.
  - exfalso.
    destruct (categorize_with_llm_total env repo cats (announce k w) Hn Hu Hcat)
      as (w2 & e2 & E). congruence.
Qed.

Lemma for_each_total cfg env cats stars (cache : Cache) n w :
  Forall wf_repo stars -> wf_catalog cats -> Forall has_stars cache ->
  exists w' cache' n',
    for_each (process_repo cfg env cats) stars (cache, n) w
      = (w', Ok (cache', n')) /\
    Forall has_stars cache'.
Proof.
  intros Hwf Hcat. revert cache n w.
  induction Hwf as [|repo stars Hr _ IH]; intros cache n w Hst.
  - simpl. unfold ret. now do 3 eexists.
  - rewrite for_each_cons.
    destruct (process_repo_total cfg env cats cache n repo w Hr Hcat Hst)
      as (w1 & cache1 & n1 & -> & Hst1).
    apply IH. assumption.
Qed.

(** *** Without a ceiling: every fetched identifier ends up in the cache *)

Lemma iteration_no_ceiling cfg env cats cache n repo w w' cache' n' name count :
  limit_reached cfg (processed_new n) = false ->
  repo_full_name repo = Some name -> repo_stargazers_count repo = Some count ->
  iteration cfg env cats cache n repo w w' (Ok (cache', n')) ->
  (exists e, lookup name cache' = Some e /\ entry_stars e = Some count) /\
  new_count n' - processed_new n' = new_count n - processed_new n.
Proof.
  intros Hlim Hname Hcount Hit.
  inversion Hit as [|k entry c Hk Hlk Hs Hf|k entry s f Hk Hlk Hs Hf Hne
                    |k Hk Hlk Hl|k w1 entry Hk Hlk Hl Hc|]; subst;
    try congruence; assert (k = name) as -> by congruence.
  - split; [|reflexivity]. exists entry. split; congruence.
  - split; [|reflexivity]. rewrite lookup_setitem_same. eexists. split; eauto.
    simpl. congruence.
  - split; [|simpl; lia]. rewrite lookup_setitem_same. eexists. split; eauto.
    apply categorize_with_llm_entry in Hc as [-> _]. now rewrite Hcount.
Qed.

Lemma for_each_no_ceiling cfg env cats stars cache n w w' cache' n' :
  (forall p, limit_reached cfg p = false) ->
  Forall wf_repo stars ->
  for_each (process_repo cfg env cats) stars (cache, n) w
    = (w', Ok (cache', n')) ->
  (forall name, In (Some name) (map repo_full_name stars) ->
     exists e count,
       lookup name cache' = Some e /\ entry_stars e = Some count /\
       fetched_count name stars = Some count) /\
  new_count n' - processed_new n' = new_count n - processed_new n.
Proof.
  intros Hlim Hwf. revert cache n w.
  induction Hwf as [|repo stars Hr _ IH]; intros cache n w.
  - simpl. unfold ret. intros [= <- <- <-]. split; [intros ? []|reflexivity].
  - rewrite for_each_cons.
    destruct (process_repo cfg env cats (cache, n) repo w)
      as [w1 [[cache1 n1]|ex]] eqn:Hs; [|discriminate].
    apply process_repo_iteration in Hs. intros Hloop.
    destruct Hr as (Hn & Hc & _).
    destruct (repo_full_name repo) as [k|] eqn:Hk; [|congruence].
    destruct (repo_stargazers_count repo) as [f|] eqn:Hf; [|congruence].
    destruct (iteration_no_ceiling _ _ _ _ _ _ _ _ _ _ _ _ (Hlim _) Hk Hf Hs)
      as [(e1 & Hl1 & Hs1) Hcnt].
    destruct (IH _ _ _ Hloop) as [Hin Hcnt'].
    split; [|lia].
    intros name Hname. simpl.
    destruct (fetched_count name stars) as [c|] eqn:Hfc.
    + apply fetched_count_in in Hfc as Hname'.
      destruct (Hin _ Hname') as (e & c' & He & Hsc & Hfc').
      exists e, c'. repeat split; congruence.
    + assert (name = k) as ->.
      { destruct Hname as [E|Hname']; [simpl in E; congruence|].
        destruct (Hin _ Hname') as (e & c' & _ & _ & Hfc'). congruence. }
      rewrite Hk, String.eqb_refl, Hf.
      exists e1, f. repeat split; auto.
      rewrite (for_each_entry _ _ _ _ _ _ _ _ _ _ _ _ Hloop Hl1), Hfc.
      reflexivity.
Qed.

(** *** Under a ceiling: the first identifiers are classified, the others
    are only counted *)

Lemma absent_ids_lookup name stars cache :
  In name (absent_ids stars cache) -> lookup name cache = None.
Proof.
  induction stars as [|repo stars IH]; simpl; [intros []|].
  destruct (repo_full_name repo) as [k|]; [|assumption].
  unfold mem. destruct (lookup k cache) eqn:Hl; [assumption|].
  intros [<-|H]; auto.
Qed.

Lemma absent_ids_same_keys stars (cache cache' : Cache) :
  keys cache = keys cache' -> absent_ids stars cache = absent_ids stars cache'.
Proof.
  intros Hk.
  assert (Hm : forall k, mem k cache = mem k cache').
  { intros k. unfold mem.
    destruct (lookup k cache) eqn:H1, (lookup k cache') eqn:H2; auto.
    - apply lookup_Some_keys in H1. apply lookup_None_keys in H2.
      rewrite Hk in H1. contradiction.
    - apply lookup_Some_keys in H2. apply lookup_None_keys in H1.
      rewrite Hk in H1. contradiction. }
  induction stars as [|repo stars IH]; simpl; [reflexivity|].
  destruct (repo_full_name repo) as [k|]; [|assumption].
  rewrite <- Hm, IH. reflexivity.
Qed.

Lemma absent_ids_setitem name entry stars (cache : Cache) :
  ~ In name (absent_ids stars cache) ->
  absent_ids stars (setitem name entry cache) = absent_ids stars cache.
Proof.
  induction stars as [|repo stars IH]; simpl; [reflexivity|].
  destruct (repo_full_name repo) as [k|]; [|assumption].
  unfold mem. destruct (String.eqb_spec name k) as [->|Hne].
  - rewrite lookup_setitem_same.
    destruct (lookup k cache); [assumption|].
    intros H. exfalso. apply H. now left.
  - rewrite lookup_setitem_other by assumption.
    destruct (lookup k cache); [assumption|].
    intros H. rewrite IH; [reflexivity|]. intros Hin. apply H. now right.
Qed.

Lemma limit_reached_ceiling cfg ceiling p :
  dry_run cfg = true -> limit cfg = Some ceiling -> ceiling <> 0 ->
  limit_reached cfg p = (ceiling <=? p).
Proof.
  unfold limit_reached. intros -> -> H. simpl.
  destruct (Z.eqb_spec ceiling 0); [contradiction | reflexivity].
Qed.

Lemma for_each_ceiling cfg env cats ceiling stars (cache : Cache) n w :
  dry_run cfg = true -> limit cfg = Some ceiling -> ceiling <> 0 ->
  Forall wf_repo stars -> wf_catalog cats -> Forall has_stars cache ->
  NoDup (absent_ids stars cache) ->
  exists w' cache' n' out,
    for_each (process_repo cfg env cats) stars (cache, n) w
      = (w', Ok (cache', n')) /\
    stdout w' = stdout w ++ out /\
    classified out
      = firstn (Z.to_nat (ceiling - processed_new n)) (absent_ids stars cache) /\
    keys cache' = keys cache ++ classified out /\
    new_count n' = new_count n + Z.of_nat (List.length (absent_ids stars cache)) /\
    processed_new n'
      = processed_new n + Z.of_nat (List.length (classified out)).
Proof.
  intros Hdry Hlim Hnz Hwf Hcat. revert cache n w.
  induction Hwf as [|repo stars Hr _ IH]; intros cache n w Hst Hnd.
  - simpl. unfold ret. exists w, cache, n, []. simpl.
    rewrite firstn_nil, !app_nil_r. repeat split; lia.
  - rewrite for_each_cons.
    destruct (process_repo_total cfg env cats cache n repo w Hr Hcat Hst)
      as (w1 & cache1 & n1 & Hs & Hst1).
    rewrite Hs. apply process_repo_iteration in Hs.
    simpl in Hnd |- *.
    inversion Hs as [|k entry c Hk Hlk Hsk Hf|k entry s f Hk Hlk Hsk Hf Hne
                     |k Hk Hlk Hl|k w2 entry Hk Hlk Hl Hc|]; subst;
      rewrite Hk in *; unfold mem in *; rewrite Hlk in *.
    + destruct (IH cache1 n1 w1 Hst1 Hnd)
        as (w' & cache' & n' & out & E & Ho & Hcl & Hkeys & Hnew & Hproc).
      exists w', cache', n', out. repeat split; auto.
    + assert (Hsame : keys (setitem k (set_stars entry f) cache) = keys cache)
        by (eapply keys_setitem_present; eauto).
      rewrite <- (absent_ids_same_keys stars _ _ Hsame) in *.
      destruct (IH _ (bump_updated n) w1 Hst1 Hnd)
        as (w' & cache' & n' & out & E & Ho & Hcl & Hkeys & Hnew & Hproc).
      exists w', cache', n', out. repeat split; auto. congruence.
    + rewrite (limit_reached_ceiling _ _ _ Hdry Hlim Hnz) in Hl.
      apply Z.leb_le in Hl. inversion Hnd as [|? ? Hnin Hnd']; subst.
      destruct (IH cache1 (bump_new n) w1 Hst1 Hnd')
        as (w' & cache' & n' & out & E & Ho & Hcl & Hkeys & Hnew & Hproc).
      simpl in *.
      replace (Z.to_nat (ceiling - processed_new n)) with O in * by lia.
      exists w', cache', n', out. repeat split; auto.
      rewrite Hnew. lia.
    + rewrite (limit_reached_ceiling _ _ _ Hdry Hlim Hnz) in Hl.
      apply Z.leb_gt in Hl. inversion Hnd as [|? ? Hnin Hnd']; subst.
      rewrite <- (absent_ids_setitem k entry stars cache Hnin) in Hnd'.
      destruct (IH _ (bump_processed n) w1 Hst1 Hnd')
        as (w' & cache' & n' & out & E & Ho & Hcl & Hkeys & Hnew & Hproc).
      apply categorize_with_llm_frame in Hc as (out1 & Ho1 & Hcl1 & _).
      simpl in *.
      rewrite (absent_ids_setitem k entry stars cache Hnin) in *.
      exists w', cache', n', (PrintProcessing k :: out1 ++ out).
      assert (Hcls : classified (PrintProcessing k :: out1 ++ out)
                     = k :: classified out).
      { simpl. now rewrite classified_app, Hcl1. }
      rewrite Hcls.
      replace (Z.to_nat (ceiling - processed_new n))
        with (S (Z.to_nat (ceiling - (processed_new n + 1)))) by lia.
      simpl. repeat split.
      * exact E.
      * rewrite Ho, Ho1. now rewrite <- !app_assoc.
      * now rewrite Hcl.
      * rewrite Hkeys, (keys_setitem_absent _ _ _ Hlk), <- app_assoc.
        reflexivity.
      * rewrite Hnew. lia.
      * rewrite Hproc. lia.
Qed.

(* ================================================================= *)
(** ** The Reconciler *)

Lemma process_new_stars_unfold cfg env stars cache cats w :
  process_new_stars cfg env stars cache cats w =
  match for_each (process_repo cfg env cats) stars (cache, no_counts) w with
  | (w1, Ok (cache', n)) => (say (summary cfg n) w1, Ok cache')
  | (w1, Raise e) => (w1, Raise e)
  end.
Proof.
  unfold process_new_stars, summary, no_counts. unfold bindM at 1.
  destruct (for_each _ _ _ _) as [w1 [[cache' n]|e]]; [|reflexivity].
  unfold_M. destruct (_ && _ && _)%bool; reflexivity.
Qed.

Lemma limit_reached_off cfg p :
  dry_run cfg = false \/ limit cfg = Some 0 \/ limit cfg = None ->
  limit_reached cfg p = false.
Proof.
  unfold limit_reached. intros [->|[->| ->]]; simpl; auto.
  all: now rewrite andb_false_r.
Qed.

(** The loop reads the configuration through [limit_reached] only. *)
Lemma for_each_same_ceiling cfg cfg' env cats stars s w :
  (forall p, limit_reached cfg p = limit_reached cfg' p) ->
  for_each (process_repo cfg env cats) stars s w
  = for_each (process_repo cfg' env cats) stars s w.
Proof.
  intros H. revert s w. induction stars as [|repo stars IH]; intros s w.
  - reflexivity.
  - rewrite !for_each_cons.
    assert (E : process_repo cfg env cats s repo w
                = process_repo cfg' env cats s repo w).
    { destruct s as [cache n]. unfold process_repo. now rewrite H. }
    rewrite E. destruct (process_repo cfg' env cats s repo w) as [w1 [s1|e]];
      auto.
Qed.

(** C2.  In preview mode with a ceiling of 3, when the fetched list carries
    five distinct identifiers [a], [b], [c], [d], [e] (in this order) that
    the cache does not hold, the run completes; the Classifier is called for
    [a], [b] and [c] and for nothing else, these three are appended to the
    cache, [d] and [e] stay out of it, and the report counts 5 new stars, 3
    processed and 2 skipped. *)
Theorem ceiling_enforcement env stars cache cats w a b c d e :
  Forall wf_repo stars -> wf_catalog cats -> wf_cache cache ->
  absent_ids stars cache = [a; b; c; d; e] -> NoDup [a; b; c; d; e] ->
  exists w' cache' out,
    process_new_stars {| dry_run := true; limit := Some 3 |} env stars cache
      cats w = (w', Ok cache') /\
    stdout w' = stdout w ++ out ++ [PrintDryRunSummary 3 5 3 2] /\
    classified out = [a; b; c] /\
    keys cache' = keys cache ++ [a; b; c] /\
    lookup d cache' = None /\ lookup e cache' = None.
Proof.
  intros Hwf Hcat [Hnd Hst] Habs Hdist.
  destruct (for_each_ceiling {| dry_run := true; limit := Some 3 |} env cats 3
              stars cache no_counts w eq_refl eq_refl ltac:(lia) Hwf Hcat Hst)
    as (w' & cache' & n' & out & E & Ho & Hcl & Hkeys & Hnew & Hproc).
  { rewrite Habs. exact Hdist. }
  rewrite Habs in *. simpl in Hcl, Hnew. rewrite Hcl in *. simpl in Hproc.
  exists (say (summary {| dry_run := true; limit := Some 3 |} n') w'), cache', out.
  rewrite process_new_stars_unfold, E.
  assert (Hd : forall x, In x [d; e] -> lookup x cache' = None).
  { intros x Hx. apply lookup_None_keys. rewrite Hkeys. intros Hin.
    apply in_app_or in Hin as [Hin|Hin].
    - assert (Hx' : In x (absent_ids stars cache))
        by (rewrite Habs; simpl in *; tauto).
      apply absent_ids_lookup, lookup_None_keys in Hx'. contradiction.
    - clear - Hdist Hx Hin.
      inversion Hdist as [|? ? Ha H1]; subst.
      inversion H1 as [|? ? Hb H2]; subst.
      inversion H2 as [|? ? Hc H3]; subst.
      simpl in *. intuition (subst; tauto). }
  repeat split; auto.
  - unfold summary. simpl. rewrite Hnew, Hproc. simpl.
    now rewrite Ho, <- app_assoc.
  - apply Hd. now left.
  - apply Hd. right. now left.
Qed.

Lemma ceiling_enforcement_witness :
  exists w' cache' out,
    process_new_stars Sample.cfg_preview_3 Sample.env Sample.five [] None
      Sample.world = (w', Ok cache') /\
    stdout w' = stdout Sample.world ++ out ++ [PrintDryRunSummary 3 5 3 2] /\
    classified out = ["o/a"; "o/b"; "o/c"] /\
    keys cache' = keys (@nil (string * Entry)) ++ ["o/a"; "o/b"; "o/c"] /\
    lookup "o/d" cache' = None /\ lookup "o/e" cache' = None.
Proof.
  apply (ceiling_enforcement Sample.env Sample.five [] None Sample.world
           "o/a" "o/b" "o/c" "o/d" "o/e").
  - repeat constructor; simpl; discriminate.
  - exact I.
  - split; constructor.
  - reflexivity.
  - repeat constructor; simpl; intuition discriminate.
Defined.

(** The run on well-formed input: it completes, and the cache it returns is
    again well-formed. *)
Lemma process_new_stars_total cfg env stars (cache : Cache) cats w :
  Forall wf_repo stars -> wf_catalog cats -> wf_cache cache ->
  exists w1 cache' n,
    for_each (process_repo cfg env cats) stars (cache, no_counts) w
      = (w1, Ok (cache', n)) /\
    process_new_stars cfg env stars cache cats w
      = (say (summary cfg n) w1, Ok cache') /\
    wf_cache cache'.
Proof.
  intros Hwf Hcat [Hnd Hst].
  destruct (for_each_total cfg env cats stars cache no_counts w Hwf Hcat Hst)
    as (w1 & cache' & n & E & Hst').
  exists w1, cache', n. rewrite process_new_stars_unfold, E.
  repeat split; auto.
  apply for_each_extends in E as (out & _ & _ & Hnd' & Hnew & Hk).
  specialize (Hk _ eq_refl). simpl in Hk. rewrite Hk. apply NoDup_app; auto.
  intros name Hin Hin'. apply Hnew, lookup_None_keys in Hin'. contradiction.
Qed.

(** C4.  For an identifier the cache holds, with stored popularity [stored],
    for which the fetched list carries the popularity [fetched]: the run
    completes and the entry under that identifier afterwards has popularity
    [fetched] and the category, description, url, language and timestamp it
    had; when the two counts are equal it is the very same entry. *)
Theorem popularity_refresh cfg env stars cache cats w name e stored fetched :
  Forall wf_repo stars -> wf_catalog cats -> wf_cache cache ->
  lookup name cache = Some e -> entry_stars e = Some stored ->
  fetched_count name stars = Some fetched ->
  exists w' cache' e',
    process_new_stars cfg env stars cache cats w = (w', Ok cache') /\
    lookup name cache' = Some e' /\
    entry_stars e' = Some fetched /\
    entry_category e' = entry_category e /\
    entry_description e' = entry_description e /\
    entry_url e' = entry_url e /\
    entry_language e' = entry_language e /\
    entry_processed_at e' = entry_processed_at e /\
    (fetched = stored -> e' = e).
Proof.
  intros Hwf Hcat Hc Hl Hs Hf.
  destruct (process_new_stars_total cfg env stars cache cats w Hwf Hcat Hc)
    as (w1 & cache' & n & E & -> & _).
  pose proof (for_each_entry _ _ _ _ _ _ _ _ _ _ _ _ E Hl) as Hl'.
  rewrite Hf in Hl'. simpl in Hl'.
  exists (say (summary cfg n) w1), cache', (set_stars e fetched).
  repeat split; auto.
  intros ->. now apply set_stars_same.
Qed.

Lemma popularity_refresh_witness :
  exists w' cache' e',
    process_new_stars Sample.cfg_plain Sample.env
      [Sample.repo "o/a" None 25] Sample.cached None Sample.world
      = (w', Ok cache') /\
    lookup "o/a" cache' = Some e' /\
    entry_stars e' = Some 25 /\
    entry_category e' = entry_category (Sample.entry "Tools" 10) /\
    entry_description e' = entry_description (Sample.entry "Tools" 10) /\
    entry_url e' = entry_url (Sample.entry "Tools" 10) /\
    entry_language e' = entry_language (Sample.entry "Tools" 10) /\
    entry_processed_at e' = entry_processed_at (Sample.entry "Tools" 10) /\
    (25 = 10 -> e' = Sample.entry "Tools" 10).
Proof.
  apply (popularity_refresh Sample.cfg_plain Sample.env
           [Sample.repo "o/a" None 25] Sample.cached None Sample.world
           "o/a" (Sample.entry "Tools" 10) 10 25).
  - repeat constructor; simpl; discriminate.
  - exact I.
  - split; repeat constructor; simpl; try discriminate. intros [].
  - reflexivity.
  - reflexivity.
  - reflexivity.
Defined.

(** C10.  When preview mode is off or the ceiling is 0, the run is the one
    made without any ceiling; it completes, calls the Classifier for every
    fetched identifier the cache did not hold and leaves each of them in
    the cache. *)
Theorem ceiling_without_effect cfg env stars cache cats w :
  dry_run cfg = false \/ limit cfg = Some 0 ->
  Forall wf_repo stars -> wf_catalog cats -> wf_cache cache ->
  process_new_stars cfg env stars cache cats w
    = process_new_stars {| dry_run := dry_run cfg; limit := None |} env stars
        cache cats w /\
  exists w' cache' out,
    process_new_stars cfg env stars cache cats w = (w', Ok cache') /\
    stdout w' = stdout w ++ out /\
    forall name,
      In (Some name) (map repo_full_name stars) -> lookup name cache = None ->
      In (PrintProcessing name) out /\ In name (keys cache').
Proof.
  intros Hoff Hwf Hcat Hc.
  assert (Hlim : forall p, limit_reached cfg p = false).
  { intros p. apply limit_reached_off. tauto. }
  split.
  - rewrite !process_new_stars_unfold.
    rewrite (for_each_same_ceiling cfg {| dry_run := dry_run cfg; limit := None |}).
    2:{ intros p. rewrite Hlim. symmetry. apply limit_reached_off. auto. }
    destruct (for_each _ _ _ _) as [w1 [[cache' n]|e]]; [|reflexivity].
    unfold summary. simpl.
    destruct Hoff as [->| ->]; simpl; rewrite ?andb_false_r; reflexivity.
  - destruct (process_new_stars_total cfg env stars cache cats w Hwf Hcat Hc)
      as (w1 & cache' & n & E & -> & _).
    destruct (for_each_no_ceiling _ _ _ _ _ _ _ _ _ _ Hlim Hwf E) as [Hin _].
    apply for_each_extends in E as (out & Ho & _ & _ & _ & Hk).
    specialize (Hk _ eq_refl). simpl in Hk.
    exists (say (summary cfg n) w1), cache', (out ++ [summary cfg n]).
    split; [reflexivity|]. split; [simpl; now rewrite Ho, app_assoc|].
    intros name Hname Habsent.
    destruct (Hin _ Hname) as (e & c & Hl & _). apply lookup_Some_keys in Hl.
    split; [|assumption].
    rewrite Hk in Hl. apply in_app_or in Hl as [Hl|Hl].
    + apply lookup_None_keys in Habsent. contradiction.
    + apply in_or_app. left. now apply in_classified.
Qed.

Lemma ceiling_without_effect_witness :
  process_new_stars {| dry_run := false; limit := Some 3 |} Sample.env
      Sample.five Sample.cached None Sample.world
    = process_new_stars {| dry_run := false; limit := None |} Sample.env
        Sample.five Sample.cached None Sample.world /\
  exists w' cache' out,
    process_new_stars {| dry_run := false; limit := Some 3 |} Sample.env
      Sample.five Sample.cached None Sample.world = (w', Ok cache') /\
    stdout w' = stdout Sample.world ++ out /\
    forall name,
      In (Some name) (map repo_full_name Sample.five) ->
      lookup name Sample.cached = None ->
      In (PrintProcessing name) out /\ In name (keys cache').
Proof.
  apply (ceiling_without_effect {| dry_run := false; limit := Some 3 |}
           Sample.env Sample.five Sample.cached None Sample.world).
  - left. reflexivity.
  - repeat constructor; simpl; discriminate.
  - exact I.
  - split; repeat constructor; simpl; try discriminate. intros [].
Defined.

(** *** A run over identifiers the cache already holds *)

Lemma for_each_known cfg env cats stars (cache : Cache) n w w' r :
  (forall name, In (Some name) (map repo_full_name stars) ->
                lookup name cache <> None) ->
  for_each (process_repo cfg env cats) stars (cache, n) w = (w', r) ->
  w' = w /\
  forall cache' n', r = Ok (cache', n') ->
    keys cache' = keys cache /\
    new_count n' = new_count n /\ processed_new n' = processed_new n.
Proof.
  revert cache n w. induction stars as [|repo stars IH]; intros cache n w Hin.
  - simpl. unfold ret. intros [= <- <-]. split; [reflexivity|].
    now intros ? ? [= <- <-].
  - rewrite for_each_cons.
    destruct (process_repo cfg env cats (cache, n) repo w) as [w1 r1] eqn:Hs.
    apply process_repo_iteration in Hs.
    assert (Hknown : forall name, repo_full_name repo = Some name ->
                                  lookup name cache <> None).
    { intros name E. apply Hin. left. exact E. }
    inversion Hs as [|k entry c Hk Hlk Hsk Hf|k entry s f Hk Hlk Hsk Hf Hne
                     |k Hk Hlk Hl|k w2 entry Hk Hlk Hl Hc
                     |k w2 e Hk Hlk Hl Hc]; subst;
      try (exfalso; apply (Hknown _ Hk); assumption).
    + intros [= <- <-]. split; [reflexivity | discriminate].
    + intros H. apply IH in H; [assumption|].
      intros name Hn. apply Hin. now right.
    + intros H. apply IH in H.
      * destruct H as [-> H]. split; [reflexivity|].
        intros cache' n' E. destruct (H _ _ E) as (Hk' & Hn1 & Hn2).
        rewrite Hk'. split; [|now split].
        eapply keys_setitem_present; eauto.
      * intros name Hn.
        assert (Hname : lookup name cache <> None) by (apply Hin; now right).
        destruct (lookup name cache) eqn:E; [|congruence].
        apply lookup_Some_keys in E.
        rewrite <- (keys_setitem_present k (set_stars entry f) _ _ Hlk) in E.
        intros Hnone. apply lookup_None_keys in Hnone. contradiction.
Qed.

(** C3.  With no ceiling, after one run over a fetched list a second run
    over the same list, at any later time and whatever the remote service
    would answer, completes with the very same cache mapping; it calls the
    Classifier for no item and reports 0 new stars. *)
Theorem reconcile_twice cfg env env' stars cache cats w w' :
  limit cfg = None ->
  Forall wf_repo stars -> wf_catalog cats -> wf_cache cache ->
  exists w1 cache1 updated,
    process_new_stars cfg env stars cache cats w = (w1, Ok cache1) /\
    process_new_stars cfg env' stars cache1 cats w'
      = (say (PrintSummary 0 updated) w', Ok cache1).
Proof.
  intros Hlimit Hwf Hcat Hc.
  assert (Hlim : forall p, limit_reached cfg p = false).
  { intros p. apply limit_reached_off. auto. }
  destruct (process_new_stars_total cfg env stars cache cats w Hwf Hcat Hc)
    as (w1 & cache1 & n1 & E1 & P1 & Hc1).
  destruct (for_each_no_ceiling _ _ _ _ _ _ _ _ _ _ Hlim Hwf E1) as [Hin _].
  destruct (process_new_stars_total cfg env' stars cache1 cats w' Hwf Hcat Hc1)
    as (w2 & cache2 & n2 & E2 & P2 & _).
  assert (Hknown : forall name, In (Some name) (map repo_full_name stars) ->
                                lookup name cache1 <> None).
  { intros name Hn. destruct (Hin _ Hn) as (e & c & -> & _). discriminate. }
  destruct (for_each_known _ _ _ _ _ _ _ _ _ Hknown E2) as [-> Hsame].
  destruct (Hsame _ _ eq_refl) as (Hkeys & Hnew & Hproc). simpl in Hnew, Hproc.
  assert (cache2 = cache1) as ->.
  { apply dict_ext; [assumption | |].
    - rewrite Hkeys. apply Hc1.
    - intros name. destruct (lookup name cache1) as [e|] eqn:Hl.
      + rewrite (for_each_entry _ _ _ _ _ _ _ _ _ _ _ _ E2 Hl).
        destruct (fetched_count name stars) as [c|] eqn:Hf; [|reflexivity].
        apply fetched_count_in in Hf as Hn.
        destruct (Hin _ Hn) as (e0 & c0 & Hl0 & Hs0 & Hf0).
        simpl. f_equal. apply set_stars_same. congruence.
      + apply lookup_None_keys. rewrite Hkeys. now apply lookup_None_keys. }
  exists (say (summary cfg n1) w1), cache1, (updated_count n2).
  split; [exact P1|]. rewrite P2.
  unfold summary. rewrite Hlimit, Hnew. simpl. rewrite andb_false_r.
  reflexivity.
Qed.

Lemma reconcile_twice_witness :
  exists w1 cache1 updated,
    process_new_stars Sample.cfg_plain Sample.env Sample.five Sample.cached
      None Sample.world = (w1, Ok cache1) /\
    process_new_stars Sample.cfg_plain Sample.env Sample.five cache1 None
      Sample.world = (say (PrintSummary 0 updated) Sample.world, Ok cache1).
Proof.
  apply (reconcile_twice Sample.cfg_plain Sample.env Sample.env Sample.five
           Sample.cached None Sample.world Sample.world).
  - reflexivity.
  - repeat constructor; simpl; discriminate.
  - exact I.
  - split; repeat constructor; simpl; try discriminate. intros [].
Defined.

(** C8 (amended).  In every run, whether it completes or stops on an
    error: the Classifier is never called for an identifier the loaded cache
    holds, it is called at most once for any identifier, and every
    identifier the loaded cache holds is still a key of the mapping the run
    returns.  (So a later run classifies an identifier again only when the
    cache it loads does not hold it, as after a preview run, which saves
    nothing.) *)
Theorem cached_never_reclassified cfg env stars cache cats w w' r :
  process_new_stars cfg env stars cache cats w = (w', r) ->
  exists out,
    stdout w' = stdout w ++ out /\
    NoDup (classified out) /\
    (forall name, In name (keys cache) -> ~ In (PrintProcessing name) out) /\
    (forall cache' name,
       r = Ok cache' -> In name (keys cache) -> In name (keys cache')).
Proof.
  intros H.
  apply process_new_stars_extends in H as (out & Ho & _ & Hnd & Hnew & Hk).
  exists out. repeat split; auto.
  - intros name Hin Hp. apply in_classified, Hnew, lookup_None_keys in Hp.
    contradiction.
  - intros cache' name -> Hin. specialize (Hk _ eq_refl). simpl in Hk.
    unfold id in Hk. rewrite Hk. apply in_or_app. now left.
Qed.

Lemma cached_never_reclassified_witness :
  exists out,
    stdout (fst (process_new_stars Sample.cfg_plain Sample.env Sample.five
                   Sample.cached None Sample.world))
      = stdout Sample.world ++ out /\
    NoDup (classified out) /\
    (forall name, In name (keys Sample.cached) ->
                  ~ In (PrintProcessing name) out) /\
    (forall cache' name,
       snd (process_new_stars Sample.cfg_plain Sample.env Sample.five
              Sample.cached None Sample.world) = Ok cache' ->
       In name (keys Sample.cached) -> In name (keys cache')).
Proof.
  apply (cached_never_reclassified Sample.cfg_plain Sample.env Sample.five
           Sample.cached None Sample.world).
  apply surjective_pairing.
Defined.

(** C8 as the specification words it fails across a preview run: the
    preview run classifies the three fetched identifiers and saves nothing,
    and the normal run that follows, started on the files the preview run
    left, classifies the same three again. *)
Lemma reclassified_after_preview :
  snd (main Probe.cfg_preview Probe.env 5 Sample.world) = Some 0 /\
  snd (main Sample.cfg_plain Probe.env 5
         (fst (main Probe.cfg_preview Probe.env 5 Sample.world))) = Some 0 /\
  classified
    (stdout (fst (main Sample.cfg_plain Probe.env 5
                    (fst (main Probe.cfg_preview Probe.env 5 Sample.world)))))
  = ["o/a"; "o/b"; "o/c"; "o/a"; "o/b"; "o/c"].
Proof. repeat split; vm_compute; reflexivity. Qed.

(* ================================================================= *)
(** ** The fallback of the Classifier *)

(** C1 (amended).  When the remote call or the decoding of its reply fails
    for an item that has an identifier and a URL, the Classifier does not
    raise: it prints one error line and returns an entry whose category is
    the language label if that is a non-empty string, ["Other"] if the
    language is [null] or empty and ["Unknown"] if the item has no
    [language] key, and whose description is the item's description if that
    is a non-empty string, ["Interesting repository"] if it is [null] or
    empty and ["No description provided"] if the item has no [description]
    key. *)
Theorem fallback_on_failure env repo cats w name url prompt :
  repo_full_name repo = Some name -> repo_html_url repo = Some url ->
  prompt_of repo cats = Ok prompt ->
  messages_create env (clock w) prompt = None ->
  categorize_with_llm env repo cats w =
    ({| clock := S (S (clock w));
        stdout := stdout w ++ [PrintError name];
        files := files w |},
     Ok {| entry_category :=
             Some (match repo_language repo with
                   | None => "Unknown"
                   | Some None => "Other"
                   | Some (Some label) =>
                       if String.eqb label "" then "Other" else label
                   end);
           entry_description :=
             Some (match repo_description repo with
                   | None => "No description provided"
                   | Some None => "Interesting repository"
                   | Some (Some text) =>
                       if String.eqb text "" then "Interesting repository"
                       else text
                   end);
           entry_url := Some url;
           entry_stars := Some (get (repo_stargazers_count repo) 0);
           entry_language := Some (get (repo_language repo) (Some "Unknown"));
           entry_processed_at :=
             Some (utcnow_isoformat env (S (clock w))) |}).
Proof.
  unfold prompt_of, categorize_with_llm. intros -> -> Hp Hfail. unfold_M.
  simpl in *. rewrite Hp. simpl. rewrite Hfail. simpl.
  unfold fallback_category, fallback_description.
  destruct (repo_language repo) as [[label|]|];
    destruct (repo_description repo) as [[text|]|]; simpl;
    try destruct (String.eqb label ""); try destruct (String.eqb text "");
    reflexivity.
Qed.

Lemma fallback_on_failure_witness :
  categorize_with_llm Sample.env Sample.bare_repo None Sample.world =
    ({| clock := 2; stdout := [PrintError "octo/bare"]; files := [] |},
     Ok {| entry_category := Some "Unknown";
           entry_description := Some "No description provided";
           entry_url := Some "https://github.com/octo/bare";
           entry_stars := Some 7;
           entry_language := Some (Some "Unknown");
           entry_processed_at := Some "2024-05-01T12:00:00" |}).
Proof.
  apply (fallback_on_failure Sample.env Sample.bare_repo None Sample.world
           "octo/bare" "https://github.com/octo/bare"
           (match prompt_of Sample.bare_repo None with
            | Ok prompt => prompt
            | Raise _ => ""
            end)); reflexivity.
Defined.

(** C1 as the specification words it fails on an item without [language]
    key: the call fails, and the category returned is ["Unknown"] where the
    specification says ["Other"]; the description is a placeholder that
    differs from the one used for a [null] description. *)
Lemma fallback_category_counterexample :
  snd (categorize_with_llm Sample.env Sample.bare_repo None Sample.world)
    = Ok {| entry_category := Some "Unknown";
            entry_description := Some "No description provided";
            entry_url := Some "https://github.com/octo/bare";
            entry_stars := Some 7;
            entry_language := Some (Some "Unknown");
            entry_processed_at := Some "2024-05-01T12:00:00" |} /\
  spec_fallback_category Sample.bare_repo = "Other" /\
  snd (categorize_with_llm Sample.env (Sample.repo "octo/null" None 7) None
         Sample.world)
    = Ok {| entry_category := Some "Other";
            entry_description := Some "Interesting repository";
            entry_url := Some "https://github.com/octo/null";
            entry_stars := Some 7;
            entry_language := Some None;
            entry_processed_at := Some "2024-05-01T12:00:00" |}.
Proof. repeat split; vm_compute; reflexivity. Qed.

(* ================================================================= *)
(** ** The Cache Store *)

Lemma init_cases env cfg w w' r :
  init env cfg w = (w', r) ->
  w' = w /\
  (r = Ok (effective env w) \/ r = Raise (SystemExit 1) \/
   exists msg, r = Raise (ValueError msg)).
Proof.
  unfold init, effective. unfold_M.
  destruct (imports_ok env); simpl; [|intros [= <- <-]; auto].
  match goal with
  | |- context [truthy (GITHUB_TOKEN ?e)] => generalize e; intros env'
  end.
  destruct (truthy (GITHUB_TOKEN env')); simpl;
    [|intros [= <- <-]; split; auto; right; right; now eexists].
  destruct (truthy (ANTHROPIC_API_KEY env')); simpl;
    [|intros [= <- <-]; split; auto; right; right; now eexists].
  intros [= <- <-]. auto.
Qed.

(** Merging [./.env] changes the three variables only. *)
Lemma effective_oracles env w :
  json_load (effective env w) = json_load env /\
  json_dump (effective env w) = json_dump env /\
  str_lower (effective env w) = str_lower env /\
  utcnow_strftime (effective env w) = utcnow_strftime env /\
  imports_ok (effective env w) = imports_ok env.
Proof.
  unfold effective. destruct (lookup dotenv_file (files w)); repeat split.
Qed.

(** C9.  [load_cache] returns the empty mapping when there is no cache
    file and the decoded mapping when the file decodes; when the file does
    not decode it raises, and the whole run then ends with exit code 1
    without writing anything. *)
Theorem load_cache_cases env w :
  (lookup cache_file (files w) = None -> load_cache env w = (w, Ok [])) /\
  (forall content cache,
     lookup cache_file (files w) = Some content ->
     json_load env content = Some cache ->
     load_cache env w = (w, Ok cache)) /\
  (forall content,
     lookup cache_file (files w) = Some content ->
     json_load env content = None ->
     load_cache env w = (w, Raise JSONDecodeError) /\
     forall cfg fuel, main cfg env fuel w = (w, Some 1)).
Proof.
  unfold load_cache. unfold_M. split; [|split].
  - now intros ->.
  - now intros content cache -> ->.
  - intros content Hf Hj. split; [now rewrite Hf, Hj|].
    intros cfg fuel. unfold main. unfold bindM at 1.
    destruct (init env cfg w) as [w1 r] eqn:Hi.
    apply init_cases in Hi as [-> [->|[->|[msg ->]]]]; try reflexivity.
    unfold run, load_cache. unfold_M. rewrite Hf.
    destruct (effective_oracles env w) as [-> _]. now rewrite Hj.
Qed.

(* ================================================================= *)
(** ** Sorting *)

Section SortFacts.
Context {A : Type} (key : A -> Z).

Lemma insert_desc_perm x l : Permutation (insert_desc key x l) (x :: l).
Proof.
  induction l as [|y l IH]; simpl; [reflexivity|].
  destruct (key x <? key y); [|reflexivity].
  rewrite IH. apply perm_swap.
Qed.

Lemma sort_reverse_perm l : Permutation l (sort_reverse key l).
Proof.
  induction l as [|x l IH]; simpl; [reflexivity|].
  rewrite insert_desc_perm. now constructor.
Qed.

Lemma insert_desc_sorted x l :
  Sorted (fun a b => key b <= key a) l ->
  Sorted (fun a b => key b <= key a) (insert_desc key x l).
Proof.
  induction 1 as [|y l Hs IH Hhd]; simpl.
  - repeat constructor.
  - destruct (Z.ltb_spec (key x) (key y)).
    + constructor; [assumption|].
      destruct l as [|z l]; simpl in *.
      * constructor. lia.
      * destruct (key x <? key z); constructor; try lia.
        now inversion Hhd.
    + constructor; [now constructor|]. constructor. lia.
Qed.

Lemma sort_reverse_sorted l :
  Sorted (fun a b => key b <= key a) (sort_reverse key l).
Proof.
  induction l as [|x l IH]; simpl; [constructor|].
  now apply insert_desc_sorted.
Qed.

(** Insertion keeps the new element in front of the elements of equal
    key, so the sort is stable. *)
Lemma insert_desc_stable c x l :
  filter (fun a => key a =? c) (insert_desc key x l)
  = filter (fun a => key a =? c) (x :: l).
Proof.
  induction l as [|y l IH]; [reflexivity|].
  simpl insert_desc. destruct (Z.ltb_spec (key x) (key y)); [|reflexivity].
  simpl in *. rewrite IH.
  destruct (Z.eqb_spec (key x) c), (Z.eqb_spec (key y) c); auto. lia.
Qed.

Lemma sort_reverse_stable c l :
  filter (fun a => key a =? c) (sort_reverse key l)
  = filter (fun a => key a =? c) l.
Proof.
  induction l as [|x l IH]; [reflexivity|].
  simpl sort_reverse. rewrite insert_desc_stable. simpl. now rewrite IH.
Qed.

End SortFacts.

Lemma insert_asc_in x y l : In y (insert_asc x l) <-> y = x \/ In y l.
Proof.
  induction l as [|z l IH]; simpl.
  - intuition.
  - destruct (String.ltb z x); simpl; [rewrite IH|]; intuition.
Qed.

Lemma sorted_in y l : In y (sorted l) <-> In y l.
Proof.
  induction l as [|x l IH]; simpl; [tauto|].
  rewrite insert_asc_in, IH. intuition.
Qed.

(* ================================================================= *)
(** ** Grouping *)

Lemma lookup_sort_each category (categories : dict (list Item)) :
  lookup category (sort_each categories)
  = option_map (sort_reverse item_stars) (lookup category categories).
Proof.
  induction categories as [|[c l] d IH]; simpl; [reflexivity|].
  destruct (String.eqb category c); auto.
Qed.

Lemma lookup_append_item c category item (categories : dict (list Item)) :
  lookup c (append_item category item categories)
  = if String.eqb c category
    then Some (get (lookup c categories) [] ++ [item])
    else lookup c categories.
Proof.
  unfold append_item.
  destruct (String.eqb_spec c category) as [->|Hne].
  - destruct (lookup category categories);
      now rewrite lookup_setitem_same.
  - destruct (lookup category categories);
      rewrite lookup_setitem_other; congruence.
Qed.

(** The grouping files every entry under its category, in the cache's
    order, behind what the category held before. *)
Lemma group_by_category_lookup items acc grouped category :
  group_by_category items acc = Ok grouped ->
  lookup category grouped
  = match lookup category acc, members category items with
    | None, [] => None
    | before, added => Some (get before [] ++ added)
    end.
Proof.
  revert acc. induction items as [|[name data] items IH]; intros acc.
  - simpl. intros [= <-]. destruct (lookup category acc); simpl; auto.
    now rewrite app_nil_r.
  - simpl. unfold to_item. simpl.
    destruct (entry_category data) as [c|]; simpl; [|discriminate].
    destruct (entry_url data) as [url|]; simpl; [|discriminate].
    destruct (entry_description data) as [text|]; simpl; [|discriminate].
    destruct (entry_stars data) as [stars|]; simpl; [|discriminate].
    intros H. rewrite (IH _ H), lookup_append_item.
    destruct (String.eqb category c).
    + simpl. rewrite <- app_assoc. simpl.
      destruct (lookup category acc); reflexivity.
    + simpl. reflexivity.
Qed.

Lemma group_by_category_members cache grouped category :
  group_by_category cache [] = Ok grouped ->
  lookup category grouped
  = match members category cache with
    | [] => None
    | items => Some items
    end.
Proof.
  intros H. rewrite (group_by_category_lookup _ _ _ category H). simpl.
  destruct (members category cache); reflexivity.
Qed.

Lemma group_by_category_count items acc grouped category :
  group_by_category items acc = Ok grouped ->
  List.length (members category items) = count_in category items.
Proof.
  revert acc. unfold count_in.
  induction items as [|[name data] items IH]; intros acc; [reflexivity|].
  simpl. unfold to_item. simpl.
  destruct (entry_category data) as [c|]; simpl; [|discriminate].
  destruct (entry_url data) as [url|]; simpl; [|discriminate].
  destruct (entry_description data) as [text|]; simpl; [|discriminate].
  destruct (entry_stars data) as [stars|]; simpl; [|discriminate].
  intros H. rewrite length_app, (IH _ H).
  rewrite (String.eqb_sym c category).
  destruct (String.eqb category c); reflexivity.
Qed.

Lemma group_by_category_total items acc :
  renderable items -> exists grouped, group_by_category items acc = Ok grouped.
Proof.
  intros H. revert acc.
  induction H as [|[name data] items (_ & Hc & Hd & Hu & Hs) _ IH]; intros acc.
  - now eexists.
  - simpl in *.
    destruct (entry_category data); [|congruence].
    destruct (entry_url data); [|congruence].
    destruct (entry_description data); [|congruence].
    destruct (entry_stars data); [|congruence]. simpl. apply IH.
Qed.

Lemma members_has_slash category cache item :
  renderable cache -> In item (members category cache) ->
  has_slash (item_name item) = true.
Proof.
  unfold members. intros H Hin. apply in_flat_map in Hin as ([name data] & Hkv & Hin).
  unfold renderable in H. rewrite Forall_forall in H.
  destruct (H _ Hkv) as (Hslash & _). unfold to_item in Hin. simpl in *.
  destruct (entry_category data), (entry_url data), (entry_description data),
    (entry_stars data); simpl in Hin; try contradiction.
  destruct (String.eqb category s); simpl in Hin; [|contradiction].
  destruct Hin as [<-|[]]. exact Hslash.
Qed.

(* ================================================================= *)
(** ** Strings *)

Lemma append_nil_r s : String.append s "" = s.
Proof. induction s as [|c s IH]; simpl; congruence. Qed.

Lemma append_assoc s1 s2 s3 :
  String.append (String.append s1 s2) s3
  = String.append s1 (String.append s2 s3).
Proof. induction s1 as [|c s1 IH]; simpl; congruence. Qed.

Lemma fstr_cons s parts : fstr (s :: parts) = String.append s (fstr parts).
Proof.
  unfold fstr. destruct parts as [|s' parts]; simpl.
  - now rewrite append_nil_r.
  - reflexivity.
Qed.



Lemma fstr_app parts parts' :
  fstr (parts ++ parts') = String.append (fstr parts) (fstr parts').
Proof.
  induction parts as [|s parts IH]; [reflexivity|].
  rewrite <- app_comm_cons, !fstr_cons, IH. now rewrite append_assoc.
Qed.

(** The three replacements of line 281 amount to one pass over the
    characters. *)
Lemma replaced_hyphenated lowered :
  replace "&" "" (replace "/" "" (replace " " "-" lowered))
  = hyphenated lowered.
Proof.
  induction lowered as [|c rest IH]; [reflexivity|]. simpl.
  destruct (Ascii.eqb_spec c " ") as [->|Hn1]; simpl; [now rewrite IH|].
  destruct (Ascii.eqb_spec c "/") as [->|Hn2]; simpl; [now rewrite IH|].
  destruct (Ascii.eqb_spec c "&") as [->|Hn3]; simpl; now rewrite IH.
Qed.

Lemma anchor_hyphenated lower category :
  anchor lower category = hyphenated (lower category).
Proof. apply replaced_hyphenated. Qed.

Lemma split_not_nil sep s : split sep s <> [].
Proof.
  destruct s as [|c s]; simpl; [discriminate|].
  destruct (Ascii.eqb c sep); [discriminate|].
  destruct (split sep s); discriminate.
Qed.

Lemma has_slash_cons c s :
  has_slash (String c s) = (Ascii.eqb c "/" || has_slash s)%bool.
Proof.
  unfold has_slash. cbn [list_ascii_of_string existsb].
  now rewrite (Ascii.eqb_sym "/"%char c).
Qed.

Lemma split_has_slash name :
  has_slash name = true ->
  exists owner short rest, split "/" name = owner :: short :: rest.
Proof.
  induction name as [|c name IH]; [discriminate|].
  rewrite has_slash_cons. cbn [split].
  destruct (Ascii.eqb c "/"); cbn [orb].
  - intros _. destruct (split "/" name) as [|seg segs] eqn:Hs.
    + now apply split_not_nil in Hs.
    + now do 3 eexists.
  - intros H. destruct (IH H) as (owner & short & rest & ->).
    now do 3 eexists.
Qed.

(* ================================================================= *)
(** ** The Document Renderer *)

Lemma repo_lines_total repos :
  Forall (fun item => has_slash (item_name item) = true) repos ->
  exists lines, repo_lines repos = Ok lines.
Proof.
  induction 1 as [|repo repos Hr _ [lines IH]]; simpl.
  - now eexists.
  - unfold repo_line, index.
    destruct (split_has_slash _ Hr) as (owner & short & rest & ->). simpl.
    rewrite IH. simpl. now eexists.
Qed.

Lemma toc_counted lower (count : string -> nat) sorted_categories categories :
  (forall category, In category sorted_categories ->
     exists repos, lookup category categories = Some repos /\
                   List.length repos = count category) ->
  toc lower sorted_categories categories
  = Ok (fstr (map (fun category => toc_line lower category (count category))
                sorted_categories)).
Proof.
  induction sorted_categories as [|category rest IH]; intros H;
    [reflexivity|].
  simpl. destruct (H category) as (repos & -> & <-); [now left|]. simpl.
  rewrite IH by (intros c Hc; apply H; now right). simpl.
  now rewrite fstr_cons.
Qed.

Lemma sections_total sorted_categories categories :
  (forall category, In category sorted_categories ->
     exists repos lines, lookup category categories = Some repos /\
                         repo_lines repos = Ok lines) ->
  exists body, sections sorted_categories categories = Ok body.
Proof.
  induction sorted_categories as [|category rest IH]; intros H.
  - now eexists.
  - simpl. destruct (H category) as (repos & lines & Hl & Hr); [now left|].
    rewrite Hl. simpl. rewrite Hr. simpl.
    destruct IH as [others ->]; [intros c Hc; apply H; now right|].
    simpl. now eexists.
Qed.


Lemma organize_inv cache sorted_categories categories :
  organize cache = Ok (sorted_categories, categories) ->
  exists grouped,
    group_by_category cache [] = Ok grouped /\
    sorted_categories = sorted (keys grouped) /\
    categories = sort_each grouped.
Proof.
  unfold organize. destruct (group_by_category cache []) as [grouped|];
    simpl; [|discriminate].
  intros [= <- <-]. now exists grouped.
Qed.

(** Every category of the section order has a non-empty list: the entries
    filed under it, sorted. *)
Lemma organize_lookup cache grouped category :
  group_by_category cache [] = Ok grouped ->
  In category (sorted (keys grouped)) ->
  lookup category grouped = Some (members category cache) /\
  lookup category (sort_each grouped)
    = Some (sort_reverse item_stars (members category cache)).
Proof.
  intros Hg Hin. apply (proj1 (sorted_in category (keys grouped))) in Hin.
  destruct (lookup category grouped) as [before|] eqn:Hl.
  2:{ apply lookup_None_keys in Hl. contradiction. }
  rewrite lookup_sort_each, Hl. simpl.
  rewrite (group_by_category_members _ _ category Hg) in Hl.
  destruct (members category cache); [discriminate|].
  injection Hl as <-. auto.
Qed.

(** The table of contents of a cache: one line per category, with the
    number of entries filed under it. *)
Lemma toc_of_organize lower cache sorted_categories categories :
  organize cache = Ok (sorted_categories, categories) ->
  toc lower sorted_categories categories
  = Ok (fstr (map (fun category =>
                     toc_line lower category (count_in category cache))
                sorted_categories)).
Proof.
  intros H. apply organize_inv in H as (grouped & Hg & -> & ->).
  apply (toc_counted lower (fun category => count_in category cache)).
  intros category Hin.
  destruct (organize_lookup _ _ _ Hg Hin) as [_ ->].
  eexists. split; [reflexivity|].
  rewrite <- (Permutation_length (sort_reverse_perm item_stars _)).
  eapply group_by_category_count; eauto.
Qed.

(** C6 (amended).  The table of contents has one line per category, in
    section order: the label, a link to [#user-content-] followed by the
    label lower-cased (by [str.lower]) with every space turned into a hyphen
    and every [/] and [&] dropped, and the number of cache entries of that
    category in parentheses. *)
Theorem toc_anchor lower cache sorted_categories categories :
  organize cache = Ok (sorted_categories, categories) ->
  toc lower sorted_categories categories
  = Ok (fstr (map (fun category =>
                     fstr ["- ["; category; "](#user-content-";
                           hyphenated (lower category); ") (";
                           str_int (Z.of_nat (count_in category cache)); ")";
                           nl])
                sorted_categories)).
Proof.
  intros H. rewrite (toc_of_organize lower _ _ _ H).
  f_equal. f_equal. apply map_ext. intros category.
  unfold toc_line. now rewrite anchor_hyphenated.
Qed.

Lemma toc_anchor_witness :
  toc ascii_lower Probe.mixed_labels Probe.mixed_groups
  = Ok (fstr (map (fun category =>
                     fstr ["- ["; category; "](#user-content-";
                           hyphenated (ascii_lower category); ") (";
                           str_int (Z.of_nat (count_in category Probe.mixed));
                           ")"; nl])
                Probe.mixed_labels)).
Proof.
  apply (toc_anchor ascii_lower Probe.mixed Probe.mixed_labels
           Probe.mixed_groups).
  vm_compute. reflexivity.
Defined.

(** C6 as the specification words it fails on a label with a space: the
    code links to [web-development], the specification's anchor is
    [webdevelopment].  (On this ASCII label [str.lower] is [ascii_lower].) *)
Lemma toc_anchor_counterexample :
  toc_line ascii_lower "Web Development" 2
    = fstr ["- [Web Development](#user-content-web-development) (2)"; nl] /\
  anchor ascii_lower "Web Development" = "web-development" /\
  spec_anchor ascii_lower "Web Development" = "webdevelopment".
Proof. repeat split; reflexivity. Qed.



(** C7.  On a cache whose keys have the form [owner/name] and whose
    entries carry category, description, url and stars, rendering raises
    nothing: [generate_readme] reads the clock once and writes the document
    to its output file.  On the empty mapping the document has no category:
    the header, an empty table of contents and the footer. *)
Theorem render_total cfg env cache w :
  renderable cache ->
  exists doc,
    render (str_lower env) (utcnow_strftime env (clock w)) cache = Ok doc /\
    generate_readme cfg env cache w
      = ({| clock := S (clock w); stdout := stdout w;
            files := setitem (readme_file cfg) doc (files w) |}, Ok tt) /\
    organize [] = Ok ([], []) /\
    forall lower now,
      render lower now [] =
      Ok (fstr ["# My Awesome List"; nl; nl;
                "> A curated list of my GitHub stars, automatically organized and described by AI 🤖";
                nl; nl;
                "*Last updated: "; now; " | Total repos: 0*"; nl; nl;
                "## Contents"; nl; nl;
                nl; "---"; nl; nl;
                "---"; nl; nl;
                "*Generated automatically by [MyAwsomeList](https://github.com/felixscode/MyAwsomeList) using Claude API*";
                nl]).
Proof.
  intros Hr.
  destruct (group_by_category_total cache [] Hr) as [grouped Hg].
  assert (Hlines : forall category, In category (sorted (keys grouped)) ->
            exists repos lines,
              lookup category (sort_each grouped) = Some repos /\
              repo_lines repos = Ok lines).
  { intros category Hin.
    destruct (organize_lookup _ _ _ Hg Hin) as [_ Hl].
    destruct (repo_lines_total (sort_reverse item_stars (members category cache)))
      as [lines Hlines].
    - apply Forall_forall. intros item Hitem.
      apply (Permutation_in _ (Permutation_sym (sort_reverse_perm item_stars _)))
        in Hitem.
      eapply members_has_slash; eauto.
    - eauto. }
  destruct (sections_total _ _ Hlines) as [body Hbody].
  assert (Horg : organize cache = Ok (sorted (keys grouped), sort_each grouped)).
  { unfold organize. now rewrite Hg. }
  assert (Htoc := toc_of_organize (str_lower env) _ _ _ Horg).
  eexists. split; [|split; [|split]].
  - unfold render. rewrite Horg. simpl. unfold readme_content.
    rewrite Htoc, Hbody. simpl. reflexivity.
  - unfold generate_readme. unfold_M. rewrite Horg. simpl.
    unfold readme_content. rewrite Htoc, Hbody. simpl. reflexivity.
  - reflexivity.
  - intros lower now. reflexivity.
Qed.

Lemma render_total_witness :
  exists doc,
    render (str_lower Sample.env)
      (utcnow_strftime Sample.env (clock Sample.world)) Sample.ties
      = Ok doc /\
    generate_readme Sample.cfg_plain Sample.env Sample.ties Sample.world
      = ({| clock := S (clock Sample.world); stdout := stdout Sample.world;
            files := setitem (readme_file Sample.cfg_plain) doc
                       (files Sample.world) |}, Ok tt) /\
    organize [] = Ok ([], []) /\
    forall lower now,
      render lower now [] =
      Ok (fstr ["# My Awesome List"; nl; nl;
                "> A curated list of my GitHub stars, automatically organized and described by AI 🤖";
                nl; nl;
                "*Last updated: "; now; " | Total repos: 0*"; nl; nl;
                "## Contents"; nl; nl;
                nl; "---"; nl; nl;
                "---"; nl; nl;
                "*Generated automatically by [MyAwsomeList](https://github.com/felixscode/MyAwsomeList) using Claude API*";
                nl]).
Proof.
  apply (render_total Sample.cfg_plain Sample.env Sample.ties Sample.world).
  repeat constructor; simpl; discriminate.
Defined.

(* ================================================================= *)
(** ** Further properties: the Classifier *)

(** X1.  When the remote call answers with a category and a description,
    the Classifier stores both as they are, whatever catalog was supplied:
    the category is not checked against the catalog.  It makes one request
    and one clock reading and prints nothing. *)
Theorem reply_trusted env repo cats w name url prompt category text :
  repo_full_name repo = Some name -> repo_html_url repo = Some url ->
  prompt_of repo cats = Ok prompt ->
  messages_create env (clock w) prompt = Some (category, text) ->
  categorize_with_llm env repo cats w =
    (later 2 w,
     Ok {| entry_category := Some category;
           entry_description := Some text;
           entry_url := Some url;
           entry_stars := Some (get (repo_stargazers_count repo) 0);
           entry_language := Some (get (repo_language repo) (Some "Unknown"));
           entry_processed_at :=
             Some (utcnow_isoformat env (S (clock w))) |}).
Proof.
  unfold prompt_of, categorize_with_llm. intros -> -> Hp Hreply. unfold_M.
  simpl in *. rewrite Hp. simpl. rewrite Hreply. reflexivity.
Qed.

Lemma reply_trusted_witness :
  categorize_with_llm Probe.env (Sample.repo "o/a" (Some "Go") 4)
    (Some {| catalog_categories := Some [ {| cat_name := Some "Other things"; cat_description := None |} ] |}) Sample.world =
    (later 2 Sample.world,
     Ok {| entry_category := Some "Tools";
           entry_description := Some "A useful tool.";
           entry_url := Some "https://github.com/o/a";
           entry_stars := Some 4;
           entry_language := Some (Some "Go");
           entry_processed_at := Some "2024-05-01T12:00:00" |}).
Proof.
  apply (reply_trusted Probe.env (Sample.repo "o/a" (Some "Go") 4)
           (Some {| catalog_categories := Some [ {| cat_name := Some "Other things"; cat_description := None |} ] |}) Sample.world "o/a" "https://github.com/o/a"
           (Sample.value "" (prompt_of (Sample.repo "o/a" (Some "Go") 4)
                               (Some {| catalog_categories := Some [ {| cat_name := Some "Other things"; cat_description := None |} ] |})))
           "Tools" "A useful tool."); reflexivity.
Defined.

(** X2.  An item without [html_url] makes the Classifier raise
    [KeyError], whether the remote call succeeds or not: the request has
    been made, the error line is printed, and the fallback raises in its
    turn. *)
Theorem missing_url_raises env repo cats w name prompt :
  repo_full_name repo = Some name -> repo_html_url repo = None ->
  prompt_of repo cats = Ok prompt ->
  categorize_with_llm env repo cats w =
    ({| clock := S (clock w); stdout := stdout w ++ [PrintError name];
        files := files w |},
     Raise (KeyError "html_url")).
Proof.
  unfold prompt_of, categorize_with_llm. intros -> -> Hp. unfold_M.
  simpl in *. rewrite Hp. simpl.
  destruct (messages_create env (clock w) prompt) as [[category text]|];
    reflexivity.
Qed.

Lemma missing_url_raises_witness :
  categorize_with_llm Probe.env Probe.no_url None Sample.world =
    ({| clock := S (clock Sample.world);
        stdout := stdout Sample.world ++ [PrintError "octo/nourl"];
        files := files Sample.world |},
     Raise (KeyError "html_url")).
Proof.
  apply (missing_url_raises Probe.env Probe.no_url None Sample.world
           "octo/nourl"
           (Sample.value "" (prompt_of Probe.no_url None))); reflexivity.
Defined.

Lemma category_details_nameless cats :
  Exists (fun cat => cat_name cat = None) cats ->
  category_details cats = Raise (KeyError "name").
Proof.
  induction cats as [|cat cats IH]; intros H; [inversion H|].
  simpl. destruct (cat_name cat) as [name|] eqn:E; simpl; [|reflexivity].
  rewrite IH; [reflexivity|]. inversion H; subst; [congruence|assumption].
Qed.

(** X3.  A catalog holding a category without name makes the Classifier
    raise [KeyError] while it builds the prompt: no request is made,
    nothing is printed and the fallback does not apply. *)
Theorem nameless_category_raises env repo cats w name :
  repo_full_name repo = Some name ->
  Exists (fun cat => cat_name cat = None) cats ->
  categorize_with_llm env repo
    (Some {| catalog_categories := Some cats |}) w
  = (w, Raise (KeyError "name")).
Proof.
  unfold categorize_with_llm. intros -> H. unfold_M. simpl.
  now rewrite (category_details_nameless _ H).
Qed.

Lemma nameless_category_raises_witness :
  categorize_with_llm Probe.env Probe.no_url
    (Some {| catalog_categories :=
               Some [ {| cat_name := Some "Tools"; cat_description := None |};
                      {| cat_name := None; cat_description := Some "?" |} ] |})
    Sample.world
  = (Sample.world, Raise (KeyError "name")).
Proof.
  apply (nameless_category_raises Probe.env Probe.no_url _ Sample.world
           "octo/nourl").
  - reflexivity.
  - right. left. reflexivity.
Defined.

(* ================================================================= *)
(** ** Further properties: the Reconciler *)

Lemma categorize_with_llm_clock env repo cats w w' e :
  categorize_with_llm env repo cats w = (w', Ok e) ->
  clock w' = S (S (clock w)).
Proof.
  unfold categorize_with_llm. unfold_M.
  destruct (repo_full_name repo) as [name|]; simpl; [|discriminate].
  destruct (build_prompt _ _ _ _ _ _) as [prompt|e']; simpl; [|discriminate].
  destruct (messages_create env (clock w) prompt) as [[category text]|];
    destruct (repo_html_url repo) as [url|]; simpl;
    intros [= <- <-]; reflexivity.
Qed.

Lemma category_details_raises cats e :
  category_details cats = Raise e -> e = KeyError "name".
Proof.
  induction cats as [|cat cats IH]; simpl; [discriminate|].
  destruct (cat_name cat); simpl; [|now intros [= <-]].
  destruct (category_details cats); simpl; [discriminate|].
  intros [= <-]. now apply IH.
Qed.

Lemma categorize_with_llm_raises env repo cats w w' e :
  categorize_with_llm env repo cats w = (w', Raise e) ->
  exists key, e = KeyError key.
Proof.
  unfold categorize_with_llm. unfold_M.
  destruct (repo_full_name repo) as [name|]; simpl;
    [|intros [= _ <-]; now eexists].
  destruct (build_prompt _ _ _ _ _ _) as [prompt|e'] eqn:Hp; simpl.
  - destruct (messages_create env (clock w) prompt) as [[category text]|];
      destruct (repo_html_url repo) as [url|]; simpl;
      intros [= _ <-]; now eexists.
  - intros [= _ <-]. unfold build_prompt in Hp.
    destruct cats as [[[l|]]|]; try discriminate.
    destruct (category_details l) eqn:Hd; simpl in Hp; [discriminate|].
    injection Hp as <-. apply category_details_raises in Hd. eexists.
    exact Hd.
Qed.

Lemma process_repo_raises cfg env cats s repo w w' e :
  process_repo cfg env cats s repo w = (w', Raise e) ->
  exists key, e = KeyError key.
Proof.
  destruct s as [cache n]. unfold process_repo. unfold_M.
  destruct (repo_full_name repo) as [name|]; simpl;
    [|intros [= _ <-]; now eexists].
  destruct (lookup name cache) as [entry|].
  - destruct (entry_stars entry); simpl; [|intros [= _ <-]; now eexists].
    destruct (repo_stargazers_count repo); simpl;
      [|intros [= _ <-]; now eexists].
    destruct (negb _); discriminate.
  - destruct (limit_reached cfg (processed_new n)); [discriminate|]. simpl.
    destruct (categorize_with_llm env repo cats _) as [w1 [entry|e']] eqn:Hc;
      [discriminate|].
    intros [= _ <-]. eapply categorize_with_llm_raises; eauto.
Qed.

Lemma for_each_raises cfg env cats stars s w w' e :
  for_each (process_repo cfg env cats) stars s w = (w', Raise e) ->
  exists key, e = KeyError key.
Proof.
  revert s w. induction stars as [|repo stars IH]; intros s w.
  - discriminate.
  - rewrite for_each_cons.
    destruct (process_repo cfg env cats s repo w) as [w1 [s1|e1]] eqn:Hs.
    + apply IH.
    + intros [= _ <-]. eapply process_repo_raises; eauto.
Qed.

(** How one iteration moves the console, the clock and the count of
    processed items. *)
Lemma iteration_progress cfg env cats cache n repo w w' r :
  iteration cfg env cats cache n repo w w' r ->
  exists out,
    stdout w' = stdout w ++ out /\
    ((classified out = [] /\
      forall cache' n', r = Ok (cache', n') ->
        clock w' = clock w /\ processed_new n' = processed_new n)
     \/
     (exists name,
        classified out = [name] /\ repo_full_name repo = Some name) /\
      limit_reached cfg (processed_new n) = false /\
      forall cache' n', r = Ok (cache', n') ->
        clock w' = S (S (clock w)) /\
        processed_new n' = processed_new n + 1).
Proof.
  destruct 1 as [e _|name entry count _ _ _ _|name entry s f _ Hl _ _ _
                 |name _ _ _|name w' entry Hn Hl Hlim Hc
                 |name w' e Hn Hl Hlim Hc].
  1-4: exists []; rewrite app_nil_r; split; [reflexivity|]; left;
       split; [reflexivity|]; intros ? ? [= <- <-]; auto.
  - pose proof (categorize_with_llm_clock _ _ _ _ _ _ Hc) as Hclock.
    apply categorize_with_llm_frame in Hc as (out & Ho & Hcl & _).
    simpl in *. exists (PrintProcessing name :: out). split.
    + now rewrite Ho, <- app_assoc.
    + right. simpl. rewrite Hcl. split; [now exists name|].
      split; [assumption|]. intros ? ? [= <- <-]. auto.
  - apply categorize_with_llm_frame in Hc as (out & Ho & Hcl & _).
    simpl in *. exists (PrintProcessing name :: out). split.
    + now rewrite Ho, <- app_assoc.
    + right. simpl. rewrite Hcl. split; [now exists name|].
      split; [assumption|]. discriminate.
Qed.

Lemma for_each_progress cfg env cats stars cache n w w' r :
  for_each (process_repo cfg env cats) stars (cache, n) w = (w', r) ->
  exists out,
    stdout w' = stdout w ++ out /\
    (forall ceiling,
       dry_run cfg = true -> limit cfg = Some ceiling -> ceiling <> 0 ->
       processed_new n + Z.of_nat (List.length (classified out))
       <= Z.max (processed_new n) ceiling) /\
    (forall name, In name (classified out) ->
                  In (Some name) (map repo_full_name stars)) /\
    (forall cache' n', r = Ok (cache', n') ->
       clock w' = (2 * List.length (classified out) + clock w)%nat /\
       processed_new n'
       = processed_new n + Z.of_nat (List.length (classified out))).
Proof.
  revert cache n w. induction stars as [|repo stars IH]; intros cache n w.
  - simpl. unfold ret. intros [= <- <-]. exists []. rewrite app_nil_r.
    split; [reflexivity|]. split; [|split].
    + intros. simpl. lia.
    + intros ? [].
    + intros ? ? [= <- <-]. simpl. split; lia.
  - rewrite for_each_cons.
    destruct (process_repo cfg env cats (cache, n) repo w) as [w1 r1] eqn:Hs.
    apply process_repo_iteration, iteration_progress in Hs
      as (out1 & Ho1 & Hcase).
    destruct r1 as [[cache1 n1]|e1].
    + intros Hloop. apply IH in Hloop as (out2 & Ho2 & Hb2 & Hin2 & Hok2).
      exists (out1 ++ out2). rewrite classified_app, length_app.
      split; [now rewrite Ho2, Ho1, app_assoc|].
      destruct Hcase as [[Hcl H1]|[[name [Hcl Hname]] [Hlim H1]]];
        destruct (H1 _ _ eq_refl) as [Hc1 Hp1]; rewrite Hcl; simpl.
      * split; [|split].
        -- intros ceiling Hd Hl Hz. specialize (Hb2 ceiling Hd Hl Hz). lia.
        -- intros k Hk. right. auto.
        -- intros cache' n' E. destruct (Hok2 _ _ E) as [Hc2 Hp2]. lia.
      * split; [|split].
        -- intros ceiling Hd Hl Hz. specialize (Hb2 ceiling Hd Hl Hz).
           rewrite (limit_reached_ceiling _ _ _ Hd Hl Hz) in Hlim.
           apply Z.leb_gt in Hlim. lia.
        -- intros k [<-|Hk]; [now left | right; auto].
        -- intros cache' n' E. destruct (Hok2 _ _ E) as [Hc2 Hp2]. lia.
    + intros [= <- <-]. exists out1. split; [assumption|].
      split; [|split; [|discriminate]].
      * intros ceiling Hd Hl Hz.
        destruct Hcase as [[Hcl _]|[[name [Hcl _]] [Hlim _]]]; rewrite Hcl;
          simpl; [lia|].
        rewrite (limit_reached_ceiling _ _ _ Hd Hl Hz) in Hlim.
        apply Z.leb_gt in Hlim. lia.
      * destruct Hcase as [[Hcl _]|[[name [Hcl Hname]] _]]; rewrite Hcl.
        -- intros ? [].
        -- intros k [<-|[]]. now left.
Qed.


(** X4.  A run that completes appends to the cache's keys exactly the
    identifiers it classified, in the order it classified them, and leaves
    the older keys in their order; it writes no file, and it makes two
    outside interactions (one request, one clock reading) per classified
    item and none besides. *)
Theorem keys_appended_in_order cfg env stars cache cats w w' cache' :
  process_new_stars cfg env stars cache cats w = (w', Ok cache') ->
  exists out,
    stdout w' = stdout w ++ out /\
    keys cache' = keys cache ++ classified out /\
    files w' = files w /\
    clock w' = (2 * List.length (classified out) + clock w)%nat.
Proof.
  intros H. pose proof (process_new_stars_extends _ _ _ _ _ _ _ _ H)
    as (out & Ho & Hf & _ & _ & Hk).
  exists out. split; [assumption|]. split; [apply (Hk _ eq_refl)|].
  split; [assumption|].
  rewrite process_new_stars_unfold in H.
  destruct (for_each _ _ _ _) as [w1 [[cache1 n1]|e]] eqn:E; [|discriminate].
  injection H as <- <-.
  apply for_each_progress in E as (out1 & Ho1 & _ & _ & Hok).
  destruct (Hok _ _ eq_refl) as [Hclock _]. simpl in *.
  rewrite Ho1, <- app_assoc in Ho. apply app_inv_head in Ho. subst out.
  rewrite classified_app. simpl. destruct (summary cfg n1) eqn:Es;
    simpl; rewrite ?app_nil_r; try assumption.
  unfold summary in Es. destruct (_ && _ && _)%bool; discriminate.
Qed.

Lemma keys_appended_in_order_witness :
  exists out,
    stdout (fst (process_new_stars Sample.cfg_plain Sample.env Sample.five
                   Sample.cached None Sample.world))
      = stdout Sample.world ++ out /\
    keys (Sample.value [] (snd (process_new_stars Sample.cfg_plain Sample.env
                                  Sample.five Sample.cached None Sample.world)))
      = keys Sample.cached ++ classified out /\
    files (fst (process_new_stars Sample.cfg_plain Sample.env Sample.five
                  Sample.cached None Sample.world))
      = files Sample.world /\
    clock (fst (process_new_stars Sample.cfg_plain Sample.env Sample.five
                  Sample.cached None Sample.world))
      = (2 * List.length (classified out) + clock Sample.world)%nat.
Proof.
  apply (keys_appended_in_order Sample.cfg_plain Sample.env Sample.five
           Sample.cached None Sample.world). vm_compute. reflexivity.
Defined.

Lemma process_new_stars_raises cfg env stars cache cats w w' e :
  process_new_stars cfg env stars cache cats w = (w', Raise e) ->
  exists key, e = KeyError key.
Proof.
  rewrite process_new_stars_unfold.
  destruct (for_each _ _ _ _) as [w1 [[cache1 n1]|e1]] eqn:E; [discriminate|].
  intros [= _ <-]. eapply for_each_raises; eauto.
Qed.

(** X6.  In preview mode with a ceiling other than 0, no run, however it
    ends and whatever the fetched list repeats, calls the Classifier more
    often than the ceiling says; with a negative ceiling it never calls
    it. *)
Theorem ceiling_never_exceeded cfg env stars cache cats w w' r ceiling :
  dry_run cfg = true -> limit cfg = Some ceiling -> ceiling <> 0 ->
  process_new_stars cfg env stars cache cats w = (w', r) ->
  exists out,
    stdout w' = stdout w ++ out /\
    Z.of_nat (List.length (classified out)) <= Z.max 0 ceiling.
Proof.
  intros Hd Hl Hz. rewrite process_new_stars_unfold.
  destruct (for_each _ _ _ _) as [w1 r1] eqn:E.
  apply for_each_progress in E as (out & Ho & Hb & _).
  specialize (Hb ceiling Hd Hl Hz).
  change (processed_new no_counts) with 0 in Hb.
  destruct r1 as [[cache1 n1]|e1]; intros [= <- <-].
  - exists (out ++ [summary cfg n1]). split.
    { simpl. now rewrite Ho, app_assoc. }
    rewrite classified_app.
    replace (classified [summary cfg n1]) with (@nil string).
    + rewrite app_nil_r. lia.
    + unfold summary. now destruct (_ && _ && _)%bool.
  - exists out. split; [assumption | lia].
Qed.

Lemma ceiling_never_exceeded_witness :
  exists out,
    stdout (fst (process_new_stars {| dry_run := true; limit := Some (-2) |}
                   Sample.env Sample.five Sample.cached None Sample.world))
      = stdout Sample.world ++ out /\
    Z.of_nat (List.length (classified out)) <= Z.max 0 (-2).
Proof.
  apply (ceiling_never_exceeded {| dry_run := true; limit := Some (-2) |}
           Sample.env Sample.five Sample.cached None Sample.world _
           (snd (process_new_stars {| dry_run := true; limit := Some (-2) |}
                   Sample.env Sample.five Sample.cached None Sample.world))
           (-2)).
  - reflexivity.
  - reflexivity.
  - discriminate.
  - apply surjective_pairing.
Defined.

(* ================================================================= *)
(** ** Further properties: the Source Fetcher *)

Lemma later_0 w : later 0 w = w.
Proof. now destruct w. Qed.

Lemma later_S k w :
  later k {| clock := S (clock w); stdout := stdout w; files := files w |}
  = later (S k) w.
Proof. unfold later. simpl. f_equal. lia. Qed.

(** After the pages that are served, the loop goes on from the next page
    with what it has collected. *)
Lemma fetch_pages_served env url pages :
  forall fuel w page acc,
    served env url (clock w) page pages ->
    fetch_pages env (List.length pages + fuel) url page acc w
    = fetch_pages env fuel url (page + Z.of_nat (List.length pages))
        (acc ++ List.concat pages) (later (List.length pages) w).
Proof.
  induction pages as [|page_stars pages IH]; intros fuel w page acc Hs.
  - simpl. now rewrite Z.add_0_r, app_nil_r, later_0.
  - destruct Hs as (Hget & Hne & Hs).
    cbn [List.length Nat.add fetch_pages]. unfold bindM, interact.
    rewrite Hget. cbn [status_code response_json negb Z.eqb Pos.eqb].
    destruct page_stars as [|repo page_stars]; [congruence|].
    rewrite IH by exact Hs. rewrite later_S. cbn [List.concat].
    rewrite app_assoc. f_equal. lia.
Qed.

(** X7.  When the endpoint serves some non-empty pages and then an empty
    one, the fetch returns the items of all pages in page order, having
    asked for the pages 1, 2, ... one after the other and stopped at the
    first empty page. *)
Theorem fetch_collects_pages env fuel w pages :
  served env (starred_url env) (clock w) 1 pages ->
  requests_get env (List.length pages + clock w) (starred_url env)
    (1 + Z.of_nat (List.length pages))
    = {| status_code := 200; response_json := [] |} ->
  (List.length pages < fuel)%nat ->
  fetch_github_stars env fuel w
  = (later (S (List.length pages)) w, Ok (Some (List.concat pages))).
Proof.
  intros Hs Hend Hfuel. unfold fetch_github_stars.
  replace fuel with (List.length pages + S (fuel - S (List.length pages)))%nat
    by lia.
  rewrite (fetch_pages_served _ _ _ _ _ _ _ Hs).
  cbn [fetch_pages]. unfold bindM, interact.
  change (clock (later (List.length pages) w))
    with (List.length pages + clock w)%nat.
  rewrite Hend. cbn [status_code response_json negb Z.eqb Pos.eqb].
  reflexivity.
Qed.

Lemma fetch_collects_pages_witness :
  fetch_github_stars Probe.env 5 Sample.world
  = (later 3 Sample.world,
     Ok (Some (List.concat [[Sample.repo "o/a" None 1; Sample.repo "o/b" None 2];
                       [Sample.repo "o/c" None 3]]))).
Proof.
  apply (fetch_collects_pages Probe.env 5 Sample.world
           [[Sample.repo "o/a" None 1; Sample.repo "o/b" None 2];
            [Sample.repo "o/c" None 3]]).
  - simpl. repeat split; discriminate.
  - reflexivity.
  - simpl. lia.
Defined.

(** X8.  When a page request answers with a status other than 200, after
    any number of good pages, the fetch gives up with [sys.exit(1)]: the
    pages already fetched are dropped. *)
Theorem fetch_fails_on_bad_status env fuel w pages :
  served env (starred_url env) (clock w) 1 pages ->
  status_code (requests_get env (List.length pages + clock w)
                 (starred_url env) (1 + Z.of_nat (List.length pages)))
    <> 200 ->
  (List.length pages < fuel)%nat ->
  fetch_github_stars env fuel w
  = (later (S (List.length pages)) w, Raise (SystemExit 1)).
Proof.
  intros Hs Hbad Hfuel. unfold fetch_github_stars.
  replace fuel with (List.length pages + S (fuel - S (List.length pages)))%nat
    by lia.
  rewrite (fetch_pages_served _ _ _ _ _ _ _ Hs).
  cbn [fetch_pages]. unfold bindM, interact, lift.
  change (clock (later (List.length pages) w))
    with (List.length pages + clock w)%nat.
  destruct (Z.eqb_spec
              (status_code (requests_get env (List.length pages + clock w)
                              (starred_url env)
                              (1 + Z.of_nat (List.length pages)))) 200)
    as [E|_]; [contradiction|].
  reflexivity.
Qed.

Lemma fetch_fails_on_bad_status_witness :
  fetch_github_stars Probe.failing_env 5 Sample.world
  = (later 2 Sample.world, Raise (SystemExit 1)).
Proof.
  apply (fetch_fails_on_bad_status Probe.failing_env 5 Sample.world
           [[Sample.repo "o/a" None 1]]).
  - simpl. repeat split; discriminate.
  - simpl. discriminate.
  - simpl. lia.
Defined.

(* ================================================================= *)
(** ** Further properties: the run as a whole *)

Lemma bindM_inv {A B} (m : M A) (f : A -> M B) w w' r :
  bindM m f w = (w', r) ->
  (exists w1 a, m w = (w1, Ok a) /\ f a w1 = (w', r)) \/
  (exists e, m w = (w', Raise e) /\ r = Raise e).
Proof.
  unfold bindM. destruct (m w) as [w1 [a|e]].
  - intros H. left. now exists w1, a.
  - intros [= <- <-]. right. now exists e.
Qed.

Lemma load_cache_inv env w w' r :
  load_cache env w = (w', r) ->
  w' = w /\ ((exists cache, r = Ok cache) \/ r = Raise JSONDecodeError).
Proof.
  unfold load_cache. unfold_M.
  destruct (lookup cache_file (files w)) as [content|];
    [destruct (json_load env content)|]; intros [= <- <-];
    split; eauto.
Qed.

Lemma load_categories_inv env w w' r :
  load_categories env w = (w', r) ->
  w' = w /\ ((exists catalog, r = Ok catalog) \/ r = Raise YAMLError).
Proof.
  unfold load_categories. unfold_M.
  destruct (lookup categories_file (files w)) as [content|];
    [destruct (yaml_safe_load env content)|]; intros [= <- <-];
    split; eauto.
Qed.

Lemma cat_names_raises cats e :
  cat_names cats = Raise e -> e = KeyError "name".
Proof.
  induction cats as [|cat cats IH]; simpl; [discriminate|].
  destruct (cat_name cat); simpl; [|now intros [= <-]].
  destruct (cat_names cats); simpl; [discriminate|].
  intros [= <-]. now apply IH.
Qed.

Lemma fetch_pages_inv env fuel url page acc w w' r :
  fetch_pages env fuel url page acc w = (w', r) ->
  files w' = files w /\ stdout w' = stdout w /\
  forall e, r = Raise e -> e = SystemExit 1.
Proof.
  revert page acc w. induction fuel as [|fuel IH]; intros page acc w.
  - simpl. unfold ret. intros [= <- <-]. repeat split. discriminate.
  - cbn [fetch_pages]. unfold bindM, interact, lift.
    destruct (negb _).
    + intros [= <- <-]. repeat split. now intros e [= <-].
    + destruct (response_json _) as [|repo page_stars].
      * unfold ret. intros [= <- <-]. repeat split. discriminate.
      * intros H. apply IH in H as (Hf & Ho & He). auto.
Qed.

Lemma group_by_category_raises items acc e :
  group_by_category items acc = Raise e -> exists key, e = KeyError key.
Proof.
  revert acc. induction items as [|[name data] items IH]; intros acc;
    simpl; [discriminate|].
  destruct (entry_category data); simpl; [|intros [= <-]; now eexists].
  destruct (entry_url data); simpl; [|intros [= <-]; now eexists].
  destruct (entry_description data); simpl; [|intros [= <-]; now eexists].
  destruct (entry_stars data); simpl; [|intros [= <-]; now eexists].
  apply IH.
Qed.

Lemma toc_raises lower sorted_categories categories e :
  toc lower sorted_categories categories = Raise e -> is_Exception e = true.
Proof.
  induction sorted_categories as [|c rest IH]; simpl; [discriminate|].
  destruct (lookup c categories); simpl; [|now intros [= <-]].
  destruct (toc lower rest categories); simpl; [discriminate|].
  intros [= <-]. now apply IH.
Qed.

Lemma repo_lines_raises repos e :
  repo_lines repos = Raise e -> e = IndexError.
Proof.
  induction repos as [|repo repos IH]; simpl; [discriminate|].
  unfold repo_line, index.
  destruct (nth_error _ 1); simpl; [|now intros [= <-]].
  destruct (repo_lines repos); simpl; [discriminate|].
  intros [= <-]. now apply IH.
Qed.

Lemma sections_raises sorted_categories categories e :
  sections sorted_categories categories = Raise e -> is_Exception e = true.
Proof.
  induction sorted_categories as [|c rest IH]; simpl; [discriminate|].
  destruct (lookup c categories); simpl; [|now intros [= <-]].
  destruct (repo_lines _) eqn:Hr; simpl.
  - destruct (sections rest categories); simpl; [discriminate|].
    intros [= <-]. now apply IH.
  - intros [= <-]. now rewrite (repo_lines_raises _ _ Hr).
Qed.

(** [generate_readme] either writes the rendering of the cache to its
    output file or raises without touching a file. *)
Lemma generate_readme_cases cfg env cache w w' r :
  generate_readme cfg env cache w = (w', r) ->
  (exists doc,
      render (str_lower env) (utcnow_strftime env (clock w)) cache = Ok doc /\
      r = Ok tt /\ stdout w' = stdout w /\
      files w' = setitem (readme_file cfg) doc (files w)) \/
  (exists e,
      render (str_lower env) (utcnow_strftime env (clock w)) cache
        = Raise e /\
      r = Raise e /\ is_Exception e = true /\ files w' = files w).
Proof.
  unfold generate_readme, render. unfold_M.
  destruct (organize cache) as [[sorted_categories categories]|e] eqn:Ho;
    simpl.
  - destruct (readme_content _ _ cache sorted_categories categories)
      as [doc|e] eqn:Hc; simpl; intros [= <- <-].
    + left. now exists doc.
    + right. exists e. repeat split; auto.
      unfold readme_content in Hc.
      destruct (toc _ _) eqn:Ht; simpl in Hc.
      * destruct (sections _ _) eqn:Hs; simpl in Hc; [discriminate|].
        injection Hc as <-. eapply sections_raises; eauto.
      * injection Hc as <-. eapply toc_raises; eauto.
  - intros [= <- <-]. right. exists e. repeat split; auto.
    unfold organize in Ho.
    destruct (group_by_category cache []) eqn:Hg; simpl in Ho; [discriminate|].
    injection Ho as <-.
    apply group_by_category_raises in Hg as [key ->]. reflexivity.
Qed.

(** The three ways a run can leave the files: untouched; the cache saved
    and the rendering failed; the cache saved (unless in preview mode) and
    the document written. *)
Lemma run_cases cfg env fuel w w' r :
  run cfg env fuel w = (w', r) ->
  (files w' = files w /\
   (r = Ok None \/
    exists e, r = Raise e /\ (e = SystemExit 1 \/ is_Exception e = true))) \/
  (exists cache' e,
      dry_run cfg = false /\ r = Raise e /\ is_Exception e = true /\
      files w' = setitem cache_file (json_dump env cache') (files w)) \/
  (exists cache' w2 doc,
      r = Ok (Some tt) /\ reconciled cfg env fuel w w2 cache' /\
      render (str_lower env) (utcnow_strftime env (clock w2)) cache'
        = Ok doc /\
      files w' = setitem (readme_file cfg) doc
                   (if dry_run cfg then files w
                    else setitem cache_file (json_dump env cache') (files w))).
Proof.
  unfold run. intros H.
  apply bindM_inv in H as [(w1 & cache & H1 & H)|(e & H1 & ->)];
    pose proof H1 as Hcache; apply load_cache_inv in H1 as [-> H1].
  2:{ left. split; [reflexivity|]. right. exists e. split; [reflexivity|].
      right. destruct H1 as [[c [=]]|[= ->]]. reflexivity. }
  clear H1.
  apply bindM_inv in H as [(w1 & cats & H1 & H)|(e & H1 & ->)];
    pose proof H1 as Hcats; apply load_categories_inv in H1 as [-> H1].
  2:{ left. split; [reflexivity|]. right. exists e. split; [reflexivity|].
      right. destruct H1 as [[c [=]]|[= ->]]. reflexivity. }
  clear H1.
  apply bindM_inv in H as [(w1 & names & H1 & H)|(e & H1 & ->)];
    unfold lift in H1; injection H1 as <- H1.
  2:{ left. split; [reflexivity|]. right. exists e. split; [reflexivity|].
      right. destruct cats as [catalog|]; [|discriminate].
      apply cat_names_raises in H1 as ->. reflexivity. }
  clear H1 names.
  apply bindM_inv in H as [(w1 & fetched & H1 & H)|(e & H1 & ->)];
    pose proof H1 as Hfetch; apply fetch_pages_inv in H1 as (Hf1 & _ & He1).
  2:{ left. split; [assumption|]. right. exists e. split; [reflexivity|].
      left. now apply He1. }
  clear He1. destruct fetched as [stars|].
  2:{ unfold ret in H. injection H as <- <-. left. auto. }
  apply bindM_inv in H as [(w2 & cache' & H2 & H)|(e & H2 & ->)].
  2:{ pose proof (process_new_stars_extends _ _ _ _ _ _ _ _ H2)
        as (out & _ & Hf2 & _).
      apply process_new_stars_raises in H2 as [key ->].
      left. split; [congruence|]. right. eexists. split; [reflexivity|].
      now right. }
  pose proof (process_new_stars_extends _ _ _ _ _ _ _ _ H2)
    as (out & _ & Hf2 & _).
  apply bindM_inv in H as [(w3 & [] & H3 & H)|(e & H3 & ->)].
  2:{ unfold save_cache, write_file, ret in H3.
      destruct (dry_run cfg); discriminate. }
  assert (Hclock : clock w3 = clock w2).
  { unfold save_cache, write_file, ret in H3.
    destruct (dry_run cfg); now injection H3 as <-. }
  apply bindM_inv in H as [(w4 & [] & H4 & H)|(e & H4 & ->)];
    apply generate_readme_cases in H4
      as [(doc & Hdoc & Hr & _ & Hf4)|(e' & _ & Hr & He & Hf4)];
    try discriminate.
  - unfold ret in H. injection H as <- <-. right. right.
    exists cache', w2, doc.
    split; [reflexivity|].
    split; [now exists cache, cats, stars, w1|].
    split; [now rewrite <- Hclock|]. rewrite Hf4.
    unfold save_cache, write_file, ret in H3.
    destruct (dry_run cfg); injection H3 as <-; simpl; congruence.
  - injection Hr as <-.
    unfold save_cache, write_file, ret in H3.
    destruct (dry_run cfg) eqn:Hd; injection H3 as <-; simpl in Hf4.
    + left. split; [congruence|]. right. exists e. auto.
    + right. left. exists cache', e. repeat split; auto. congruence.
Qed.

(** The same for the whole process, which reads its credentials from the
    environment with [./.env] merged in. *)
Lemma main_cases cfg env fuel w w' code :
  main cfg env fuel w = (w', code) ->
  (files w' = files w /\ code <> Some 0) \/
  (exists cache',
      dry_run cfg = false /\ code = Some 1 /\
      files w' = setitem cache_file (json_dump env cache') (files w)) \/
  (exists cache' w2 doc,
      code = Some 0 /\ reconciled cfg (effective env w) fuel w w2 cache' /\
      render (str_lower env) (utcnow_strftime env (clock w2)) cache'
        = Ok doc /\
      files w' = setitem (readme_file cfg) doc
                   (if dry_run cfg then files w
                    else setitem cache_file (json_dump env cache') (files w))).
Proof.
  unfold main.
  destruct ((env' <- init env cfg ;; run cfg env' fuel) w) as [w1 r] eqn:H.
  destruct (effective_oracles env w) as (_ & Hdump & Hlower & Hnow & _).
  apply bindM_inv in H as [(w0 & env' & H0 & H)|(e & H0 & ->)];
    apply init_cases in H0 as [-> H0].
  - destruct H0 as [[= ->]|[[=]|[msg [=]]]].
    apply run_cases in H
      as [[Hf [->|(e & -> & [->|He])]]
         |[(cache' & e & Hd & -> & He & Hf)
          |(cache' & w2 & doc & -> & Hrec & Hdoc & Hf)]];
      rewrite ?Hdump, ?Hlower, ?Hnow in *.
    + intros [= <- <-]. left. split; [assumption | discriminate].
    + intros [= <- <-]. left. split; [assumption | discriminate].
    + destruct e; try discriminate; intros [= <- <-]; left;
        (split; [assumption | discriminate]).
    + destruct e; try discriminate; intros [= <- <-]; right; left;
        now exists cache'.
    + intros [= <- <-]. right. right. now exists cache', w2, doc.
  - destruct H0 as [[=]|[[= ->]|[msg [= ->]]]]; intros [= <- <-]; left;
      (split; [reflexivity | discriminate]).
Qed.

(** X9.  In preview mode the run, however it ends, changes no file other
    than [README.dry-run.md]: the cache file and [README.md] keep their
    content. *)
Theorem preview_spares_files cfg env fuel w w' code name :
  dry_run cfg = true ->
  main cfg env fuel w = (w', code) ->
  name <> "README.dry-run.md" ->
  lookup name (files w') = lookup name (files w).
Proof.
  intros Hd H Hname.
  apply main_cases in H
    as [[-> _]|[(cache' & Hd' & _)|(cache' & w2 & doc & _ & _ & _ & ->)]];
    [reflexivity | congruence |].
  unfold readme_file. rewrite Hd. now apply lookup_setitem_other.
Qed.

Lemma preview_spares_files_witness :
  lookup cache_file
    (files (fst (main Probe.cfg_preview Probe.env 5 Sample.world)))
  = lookup cache_file (files Sample.world).
Proof.
  apply (preview_spares_files Probe.cfg_preview Probe.env 5 Sample.world
           (fst (main Probe.cfg_preview Probe.env 5 Sample.world))
           (snd (main Probe.cfg_preview Probe.env 5 Sample.world))
           cache_file).
  - reflexivity.
  - apply surjective_pairing.
  - discriminate.
Defined.

(** X10.  A run that ends with exit code 0 has loaded the cache, fetched
    the starred items and reconciled them (all with the credentials of the
    environment with [./.env] merged in); its output file then holds the
    rendering of the reconciled cache at the time reconciliation ended,
    and, unless in preview mode, the cache file holds the serialized
    reconciled cache. *)
Theorem exit_zero_has_written cfg env fuel w w' :
  main cfg env fuel w = (w', Some 0) ->
  exists cache' w2 doc,
    reconciled cfg (effective env w) fuel w w2 cache' /\
    render (str_lower env) (utcnow_strftime env (clock w2)) cache' = Ok doc /\
    lookup (readme_file cfg) (files w') = Some doc /\
    (dry_run cfg = false ->
     lookup cache_file (files w') = Some (json_dump env cache')).
Proof.
  intros H.
  apply main_cases in H
    as [[_ Hc]|[(cache' & _ & [=] & _)
               |(cache' & w2 & doc & _ & Hrec & Hdoc & ->)]];
    [congruence|].
  exists cache', w2, doc. split; [assumption|]. split; [assumption|].
  split; [apply lookup_setitem_same|].
  intros Hd. rewrite Hd. unfold readme_file. rewrite Hd.
  rewrite lookup_setitem_other by discriminate.
  apply lookup_setitem_same.
Qed.

Lemma exit_zero_has_written_witness :
  exists cache' w2 doc,
    reconciled Sample.cfg_plain (effective Probe.env Sample.world) 5
      Sample.world w2 cache' /\
    render (str_lower Probe.env) (utcnow_strftime Probe.env (clock w2)) cache'
      = Ok doc /\
    lookup (readme_file Sample.cfg_plain)
      (files (fst (main Sample.cfg_plain Probe.env 5 Sample.world)))
      = Some doc /\
    (dry_run Sample.cfg_plain = false ->
     lookup cache_file
       (files (fst (main Sample.cfg_plain Probe.env 5 Sample.world)))
     = Some (json_dump Probe.env cache')).
Proof.
  apply (exit_zero_has_written Sample.cfg_plain Probe.env 5 Sample.world
           (fst (main Sample.cfg_plain Probe.env 5 Sample.world))).
  vm_compute. reflexivity.
Defined.

(** X12.  Without its dependencies, or when, once [./.env] has been merged
    into the environment, the GitHub token or the Anthropic key is missing
    or empty, the run ends with exit code 1 and has changed nothing: no
    request made, no line printed by the reconciliation, no file
    written. *)
Theorem missing_credentials_exit cfg env fuel w :
  imports_ok env = false \/
  truthy (GITHUB_TOKEN (effective env w)) = false \/
  truthy (ANTHROPIC_API_KEY (effective env w)) = false ->
  main cfg env fuel w = (w, Some 1).
Proof.
  unfold main, init, effective. unfold_M. intros H.
  destruct (imports_ok env); simpl; [|reflexivity].
  revert H.
  match goal with
  | |- context [truthy (GITHUB_TOKEN ?e)] => generalize e; intros env'
  end.
  intros H.
  destruct (truthy (GITHUB_TOKEN env')); simpl; [|reflexivity].
  destruct (truthy (ANTHROPIC_API_KEY env')); simpl; [|reflexivity].
  destruct H as [H|[H|H]]; discriminate.
Qed.

Lemma missing_credentials_exit_witness :
  main Sample.cfg_plain Probe.dotenv_env 5 Probe.dotenv_world
  = (Probe.dotenv_world, Some 1).
Proof.
  apply (missing_credentials_exit Sample.cfg_plain Probe.dotenv_env 5
           Probe.dotenv_world).
  right. right. reflexivity.
Defined.

(* ================================================================= *)
(** ** Further properties: the Cache Store *)

(** X13.  With a JSON codec that reads back what it wrote for this cache,
    loading after saving returns the saved cache; in preview mode saving
    writes nothing, so loading returns what loading returned before. *)
Theorem save_then_load cfg env cache w :
  json_load env (json_dump env cache) = Some cache ->
  (dry_run cfg = false ->
   (save_cache cfg env cache ;;; load_cache env) w
   = ({| clock := clock w; stdout := stdout w;
         files := setitem cache_file (json_dump env cache) (files w) |},
      Ok cache)) /\
  (dry_run cfg = true ->
   (save_cache cfg env cache ;;; load_cache env) w = load_cache env w).
Proof.
  intros Hcodec. unfold save_cache, load_cache. split; intros ->; unfold_M.
  - simpl. now rewrite lookup_setitem_same, Hcodec.
  - reflexivity.
Qed.

Lemma save_then_load_witness :
  (dry_run Sample.cfg_plain = false ->
   (save_cache Sample.cfg_plain Probe.env Sample.cached ;;;
    load_cache Probe.env) Sample.world
   = ({| clock := clock Sample.world; stdout := stdout Sample.world;
         files := setitem cache_file (json_dump Probe.env Sample.cached)
                    (files Sample.world) |},
      Ok Sample.cached)) /\
  (dry_run Sample.cfg_plain = true ->
   (save_cache Sample.cfg_plain Probe.env Sample.cached ;;;
    load_cache Probe.env) Sample.world = load_cache Probe.env Sample.world).
Proof.
  apply (save_then_load Sample.cfg_plain Probe.env Sample.cached Sample.world).
  reflexivity.
Defined.

(* ================================================================= *)
(** ** Further properties: the Document Renderer *)

Lemma ltb_total x y :
  String.ltb y x = false -> x <> y -> String.ltb x y = true.
Proof.
  unfold String.ltb. rewrite (String.compare_antisym y x).
  destruct (String.compare x y) eqn:E; simpl; try congruence.
  apply String.compare_eq_iff in E. congruence.
Qed.

Lemma insert_asc_perm x l : Permutation (insert_asc x l) (x :: l).
Proof.
  induction l as [|y l IH]; simpl; [reflexivity|].
  destruct (String.ltb y x); [|reflexivity].
  rewrite IH. apply perm_swap.
Qed.

Lemma sorted_perm l : Permutation l (sorted l).
Proof.
  induction l as [|x l IH]; simpl; [reflexivity|].
  rewrite insert_asc_perm. now constructor.
Qed.

Lemma insert_asc_ascending x l :
  ascending l -> ~ In x l -> ascending (insert_asc x l).
Proof.
  unfold ascending. induction 1 as [|y l Hs IH Hhd]; intros Hx; simpl.
  - repeat constructor.
  - destruct (String.ltb y x) eqn:E.
    + constructor; [apply IH; intros H; apply Hx; now right|].
      destruct l as [|z l]; simpl.
      * now constructor.
      * destruct (String.ltb z x); constructor; auto. now inversion Hhd.
    + constructor; [now constructor|]. constructor.
      apply ltb_total; [assumption|]. intros ->. apply Hx. now left.
Qed.

Lemma sorted_ascending l : NoDup l -> ascending (sorted l).
Proof.
  induction 1 as [|x l Hx _ IH]; simpl; [constructor|].
  apply insert_asc_ascending; [assumption|].
  intros H. apply Hx. now apply (proj1 (sorted_in x l)).
Qed.

Lemma keys_append_item_NoDup category item (categories : dict (list Item)) :
  NoDup (keys categories) -> NoDup (keys (append_item category item categories)).
Proof.
  unfold append_item. intros H.
  destruct (lookup category categories) as [items|] eqn:Hl.
  - now rewrite (keys_setitem_present _ _ _ _ Hl).
  - rewrite (keys_setitem_absent _ _ _ Hl). apply NoDup_app; auto.
    + repeat constructor. intros [].
    + intros k Hk [<-|[]]. apply lookup_None_keys in Hl. contradiction.
Qed.

Lemma group_by_category_NoDup items acc grouped :
  group_by_category items acc = Ok grouped ->
  NoDup (keys acc) -> NoDup (keys grouped).
Proof.
  revert acc. induction items as [|[name data] items IH]; intros acc; simpl.
  - now intros [= <-].
  - destruct (entry_category data); simpl; [|discriminate].
    destruct (entry_url data); simpl; [|discriminate].
    destruct (entry_description data); simpl; [|discriminate].
    destruct (entry_stars data); simpl; [|discriminate].
    intros H Hnd. eapply IH; eauto. now apply keys_append_item_NoDup.
Qed.

(** The labels of the section order: each once, and exactly the categories
    that some cache entry carries. *)
Lemma sections_in_order_facts cache sorted_categories categories :
  organize cache = Ok (sorted_categories, categories) ->
  NoDup sorted_categories /\
  forall category,
    In category sorted_categories <-> (0 < count_in category cache)%nat.
Proof.
  intros H. apply organize_inv in H as (grouped & Hg & -> & _).
  assert (Hnd : NoDup (keys grouped)).
  { eapply group_by_category_NoDup; eauto. constructor. }
  split; [eapply Permutation_NoDup; [apply sorted_perm | exact Hnd]|].
  intros category. rewrite sorted_in.
  rewrite <- (group_by_category_count _ _ _ category Hg).
  pose proof (group_by_category_members _ _ category Hg) as Hl.
  split.
  - intros Hin. destruct (members category cache); simpl; [|lia].
    apply lookup_None_keys in Hl. contradiction.
  - intros Hpos. destruct (members category cache) as [|item items];
      [simpl in Hpos; lia|].
    eapply lookup_Some_keys; eauto.
Qed.

Lemma fstr_section c lines others :
  fstr ["## "; c; nl; nl; lines; nl; others]
  = String.append (section_text c lines) others.
Proof.
  change ["## "; c; nl; nl; lines; nl; others]
    with (["## "; c; nl; nl; lines; nl] ++ [others]).
  rewrite fstr_app. unfold section_text. now f_equal.
Qed.

(** The body is the sections of the labels, in their order. *)
Lemma sections_body labels categories body :
  sections labels categories = Ok body ->
  exists lines,
    List.length lines = List.length labels /\ body = body_text labels lines.
Proof.
  revert body. induction labels as [|c rest IH]; intros body; simpl.
  - intros [= <-]. now exists [].
  - destruct (lookup c categories) as [repos|]; simpl; [|discriminate].
    destruct (repo_lines repos) as [lines0|]; simpl; [|discriminate].
    destruct (sections rest categories) as [others|]; simpl; [|discriminate].
    intros [= <-]. destruct (IH _ eq_refl) as (lines & Hlen & ->).
    exists (lines0 :: lines). split; [simpl; now rewrite Hlen|].
    rewrite fstr_section. unfold body_text. simpl. now rewrite fstr_cons.
Qed.

Lemma contents_text_counts lower (count : string -> nat) labels :
  fstr (map (fun category => toc_line lower category (count category)) labels)
  = contents_text lower labels (map count labels).
Proof.
  unfold contents_text. f_equal.
  induction labels as [|c labels IH]; simpl; [reflexivity|]. now rewrite IH.
Qed.

(** The document of a cache that renders: the header with the number of
    entries, one line of contents and one section per label of the section
    order. *)
Lemma render_layout lower now cache doc :
  render lower now cache = Ok doc ->
  exists labels categories lines,
    organize cache = Ok (labels, categories) /\
    List.length lines = List.length labels /\
    doc = layout now (List.length cache)
            (contents_text lower labels
               (map (fun category => count_in category cache) labels))
            (body_text labels lines).
Proof.
  unfold render.
  destruct (organize cache) as [[labels categories]|] eqn:Horg; simpl;
    [|discriminate].
  unfold readme_content. rewrite (toc_of_organize lower _ _ _ Horg). simpl.
  destruct (sections labels categories) as [body|] eqn:Hs; simpl;
    [|discriminate].
  intros [= <-]. apply sections_body in Hs as (lines & Hlen & ->).
  exists labels, categories, lines. split; [reflexivity|].
  split; [assumption|]. now rewrite contents_text_counts.
Qed.

(** X14.  A document that renders consists of the header, one line of
    contents per label, one section per label in the same order, and the
    footer; the labels come in strictly ascending order, each once, and
    they are exactly the categories that some cache entry carries. *)
Theorem sections_in_order lower now cache doc :
  render lower now cache = Ok doc ->
  exists labels counts lines,
    doc = layout now (List.length cache)
            (contents_text lower labels counts) (body_text labels lines) /\
    List.length counts = List.length labels /\
    List.length lines = List.length labels /\
    ascending labels /\
    NoDup labels /\
    forall category,
      In category labels <-> (0 < count_in category cache)%nat.
Proof.
  intros H.
  apply render_layout in H as (labels & categories & lines & Horg & Hlen & ->).
  exists labels, (map (fun category => count_in category cache) labels), lines.
  split; [reflexivity|]. split; [apply length_map|]. split; [assumption|].
  split; [|now apply sections_in_order_facts in Horg].
  apply organize_inv in Horg as (grouped & Hg & -> & _).
  apply sorted_ascending.
  eapply group_by_category_NoDup; eauto. constructor.
Qed.

Lemma sections_in_order_witness :
  exists labels counts lines,
    Sample.value "" (render ascii_lower "2024-05-01 12:00 UTC" Probe.mixed)
    = layout "2024-05-01 12:00 UTC" (List.length Probe.mixed)
        (contents_text ascii_lower labels counts) (body_text labels lines) /\
    List.length counts = List.length labels /\
    List.length lines = List.length labels /\
    ascending labels /\
    NoDup labels /\
    forall category,
      In category labels <-> (0 < count_in category Probe.mixed)%nat.
Proof.
  apply (sections_in_order ascii_lower "2024-05-01 12:00 UTC" Probe.mixed
           (Sample.value ""
              (render ascii_lower "2024-05-01 12:00 UTC" Probe.mixed))).
  vm_compute. reflexivity.
Defined.

Lemma group_by_category_missing good name data rest acc key :
  Forall complete good -> first_missing data = Some key ->
  group_by_category (good ++ (name, data) :: rest) acc = Raise (KeyError key).
Proof.
  intros Hgood Hkey. revert acc.
  induction Hgood as [|[k e] good (Hc & Hd & Hu & Hs) _ IH]; intros acc;
    simpl in *.
  - unfold first_missing in Hkey.
    destruct (entry_category data); simpl; [|congruence].
    destruct (entry_url data); simpl; [|congruence].
    destruct (entry_description data); simpl; [|congruence].
    destruct (entry_stars data); simpl; congruence.
  - destruct (entry_category e); [|congruence].
    destruct (entry_url e); [|congruence].
    destruct (entry_description e); [|congruence].
    destruct (entry_stars e); [|congruence]. simpl. apply IH.
Qed.

(** X15.  When the first cache entry that lacks one of the keys
    [category], [url], [description], [stars] lacks [key] (the first of
    them in this order), rendering raises [KeyError] for [key]; a missing
    [language] or [processed_at] raises nothing. *)
Theorem incomplete_entry_raises lower now good name data rest key :
  Forall complete good -> first_missing data = Some key ->
  render lower now (good ++ (name, data) :: rest) = Raise (KeyError key).
Proof.
  intros Hgood Hkey. unfold render, organize.
  now rewrite (group_by_category_missing _ _ _ _ _ _ Hgood Hkey).
Qed.

Lemma incomplete_entry_raises_witness :
  render ascii_lower "2024-05-01 12:00 UTC"
    (Sample.cached ++ ("o/b", Probe.no_url_entry) :: Sample.ties)
  = Raise (KeyError "url").
Proof.
  apply (incomplete_entry_raises ascii_lower "2024-05-01 12:00 UTC"
           Sample.cached "o/b"
           Probe.no_url_entry Sample.ties "url").
  - repeat constructor; simpl; discriminate.
  - reflexivity.
Defined.

Lemma split_no_slash name :
  has_slash name = false -> split "/" name = [name].
Proof.
  induction name as [|c name IH]; [reflexivity|].
  rewrite has_slash_cons. cbn [split].
  destruct (Ascii.eqb c "/"); cbn [orb]; [discriminate|].
  intros H. now rewrite (IH H).
Qed.

Lemma repo_lines_no_slash repos :
  Exists (fun item => has_slash (item_name item) = false) repos ->
  repo_lines repos = Raise IndexError.
Proof.
  induction 1 as [repo repos Hbad|repo repos _ IH]; simpl.
  - unfold repo_line. now rewrite (split_no_slash _ Hbad).
  - destruct (repo_line repo) as [line|e] eqn:Hl; simpl.
    + now rewrite IH.
    + unfold repo_line, index in Hl.
      destruct (nth_error _ 1); simpl in Hl; congruence.
Qed.

Lemma sections_no_slash sorted_categories categories :
  (forall category, In category sorted_categories ->
                    lookup category categories <> None) ->
  (exists category repos,
      In category sorted_categories /\
      lookup category categories = Some repos /\
      Exists (fun item => has_slash (item_name item) = false) repos) ->
  sections sorted_categories categories = Raise IndexError.
Proof.
  induction sorted_categories as [|c rest IH]; intros Hall Hbad.
  - destruct Hbad as (category & repos & [] & _).
  - simpl. destruct (lookup c categories) as [repos0|] eqn:Hl0.
    2:{ exfalso. apply (Hall c); [now left | assumption]. }
    simpl. destruct (repo_lines repos0) as [lines|e] eqn:Hr; simpl.
    + rewrite IH; [reflexivity | intros k Hk; apply Hall; now right |].
      destruct Hbad as (category & repos & [<-|Hin] & Hl & Hex).
      * rewrite Hl0 in Hl. injection Hl as <-.
        rewrite (repo_lines_no_slash _ Hex) in Hr. discriminate.
      * now exists category, repos.
    + now rewrite (repo_lines_raises _ _ Hr).
Qed.

Lemma group_by_category_complete items acc :
  Forall complete items -> exists grouped, group_by_category items acc = Ok grouped.
Proof.
  intros H. revert acc.
  induction H as [|[name data] items (Hc & Hd & Hu & Hs) _ IH]; intros acc.
  - now eexists.
  - simpl in *.
    destruct (entry_category data); [|congruence].
    destruct (entry_url data); [|congruence].
    destruct (entry_description data); [|congruence].
    destruct (entry_stars data); [|congruence]. simpl. apply IH.
Qed.

Lemma members_of_entry cache name data :
  Forall complete cache -> In (name, data) cache ->
  exists category item,
    entry_category data = Some category /\ item_name item = name /\
    In item (members category cache).
Proof.
  intros Hc Hin. rewrite Forall_forall in Hc.
  destruct (Hc _ Hin) as (H1 & H2 & H3 & H4). simpl in *.
  destruct (entry_category data) as [category|] eqn:E1; [|congruence].
  destruct (entry_description data) as [text|] eqn:E2; [|congruence].
  destruct (entry_url data) as [url|] eqn:E3; [|congruence].
  destruct (entry_stars data) as [stars|] eqn:E4; [|congruence].
  exists category.
  eexists {| item_name := name; item_url := url; item_description := text;
             item_stars := stars;
             item_language := get (entry_language data) (Some "") |}.
  split; [reflexivity|]. split; [reflexivity|].
  unfold members. apply in_flat_map. exists (name, data).
  split; [assumption|]. unfold to_item. simpl.
  rewrite E1, E2, E3, E4, String.eqb_refl. now left.
Qed.

(** X16.  When every entry has the keys the renderer indexes and some
    cache key holds no [/], rendering raises [IndexError]: the short name is
    taken as the second segment of the key. *)
Theorem flat_key_raises lower now cache :
  Forall complete cache ->
  Exists (fun kv => has_slash (fst kv) = false) cache ->
  render lower now cache = Raise IndexError.
Proof.
  intros Hc Hbad.
  destruct (group_by_category_complete cache [] Hc) as [grouped Hg].
  assert (Horg : organize cache = Ok (sorted (keys grouped), sort_each grouped)).
  { unfold organize. now rewrite Hg. }
  unfold render. rewrite Horg. simpl. unfold readme_content.
  rewrite (toc_of_organize lower _ _ _ Horg). simpl.
  rewrite sections_no_slash; [reflexivity | |].
  - intros category Hin.
    destruct (organize_lookup _ _ _ Hg Hin) as [_ ->]. discriminate.
  - apply Exists_exists in Hbad as ([name data] & Hin & Hslash).
    destruct (members_of_entry _ _ _ Hc Hin)
      as (category & item & Hcat & Hname & Hitem).
    pose proof (group_by_category_members _ _ category Hg) as Hl.
    assert (Hcats : In category (sorted (keys grouped))).
    { apply (proj2 (sorted_in category (keys grouped))).
      destruct (members category cache) eqn:E; [contradiction|].
      eapply lookup_Some_keys; eauto. }
    destruct (organize_lookup _ _ _ Hg Hcats) as [_ Hl'].
    exists category, (sort_reverse item_stars (members category cache)).
    split; [assumption|]. split; [assumption|].
    apply Exists_exists. exists item. split.
    + eapply Permutation_in; [apply sort_reverse_perm | exact Hitem].
    + simpl in Hslash. congruence.
Qed.

Lemma flat_key_raises_witness :
  render ascii_lower "2024-05-01 12:00 UTC" Probe.flat_key = Raise IndexError.
Proof.
  apply (flat_key_raises ascii_lower "2024-05-01 12:00 UTC" Probe.flat_key).
  - repeat constructor; simpl; discriminate.
  - right. left. reflexivity.
Defined.

Lemma hyphenated_characters lowered c :
  In c (list_ascii_of_string (hyphenated lowered)) ->
  c <> " "%char /\ c <> "/"%char /\ c <> "&"%char.
Proof.
  induction lowered as [|a rest IH]; simpl; [intros []|].
  destruct (Ascii.eqb_spec a " ") as [->|H1]; simpl.
  { intros [<-|H]; [|auto]. repeat split; discriminate. }
  destruct (Ascii.eqb_spec a "/") as [->|H2]; simpl; [assumption|].
  destruct (Ascii.eqb_spec a "&") as [->|H3]; simpl; [assumption|].
  intros [<-|H]; auto.
Qed.

(** X17.  Whatever [str.lower] makes of a label, the anchor built from it
    holds no space, no [/] and no [&]. *)
Theorem anchor_characters lower category c :
  In c (list_ascii_of_string (anchor lower category)) ->
  c <> " "%char /\ c <> "/"%char /\ c <> "&"%char.
Proof.
  rewrite anchor_hyphenated. apply hyphenated_characters.
Qed.

Lemma anchor_characters_witness :
  "-"%char <> " "%char /\ "-"%char <> "/"%char /\ "-"%char <> "&"%char.
Proof.
  apply (anchor_characters ascii_lower "C & C++ / Tools" "-").
  vm_compute. right. left. reflexivity.
Defined.

(* ================================================================= *)
(** ** Further properties: an item without popularity count *)

Lemma for_each_app {A S} (body : S -> A -> M S) l1 l2 s w :
  for_each body (l1 ++ l2) s w =
  match for_each body l1 s w with
  | (w1, Ok s1) => for_each body l2 s1 w1
  | (w1, Raise e) => (w1, Raise e)
  end.
Proof.
  revert s w. induction l1 as [|x l1 IH]; intros s w; [reflexivity|].
  rewrite <- app_comm_cons, !for_each_cons.
  destruct (body s x w) as [w1 [s1|e]]; [apply IH | reflexivity].
Qed.

(** A well-formed stretch of the list leaves an identifier out of the cache
    that was neither in the cache nor in the stretch. *)
Lemma for_each_absent cfg env cats stars (cache : Cache) n w w' cache' n' name :
  for_each (process_repo cfg env cats) stars (cache, n) w
    = (w', Ok (cache', n')) ->
  lookup name cache = None ->
  ~ In (Some name) (map repo_full_name stars) ->
  lookup name cache' = None.
Proof.
  intros E Hl Hnot.
  pose proof (for_each_extends _ _ _ _ _ _ _ _ _ E)
    as (out & Ho & _ & _ & _ & Hk).
  apply for_each_progress in E as (out' & Ho' & _ & Hin & _).
  rewrite Ho in Ho'. apply app_inv_head in Ho'. subst out'.
  specialize (Hk _ eq_refl). simpl in Hk.
  apply lookup_None_keys. rewrite Hk. intros H.
  apply in_app_or in H as [H|H].
  - apply lookup_None_keys in Hl. contradiction.
  - apply Hnot, Hin, H.
Qed.

(** X18.  An item without [stargazers_count] that the cache does not hold
    is classified and stored with popularity 0 (or with the count of a later
    item of the same identifier), and the run completes; a second run over
    the same list then raises [KeyError] at that item, because a cached
    item's count is read without default. *)
Theorem missing_count_breaks_rerun
    cfg env env' before repo after (cache : Cache) cats w w2 name :
  limit cfg = None ->
  Forall wf_repo before -> Forall wf_repo after -> wf_catalog cats ->
  Forall has_stars cache ->
  repo_full_name repo = Some name -> repo_html_url repo <> None ->
  repo_stargazers_count repo = None ->
  lookup name cache = None ->
  ~ In (Some name) (map repo_full_name before) ->
  exists w1 cache1 e w3,
    process_new_stars cfg env (before ++ repo :: after) cache cats w
      = (w1, Ok cache1) /\
    lookup name cache1 = Some e /\
    entry_stars e = Some (get (fetched_count name after) 0) /\
    process_new_stars cfg env' (before ++ repo :: after) cache1 cats w2
      = (w3, Raise (KeyError "stargazers_count")).
Proof.
  intros Hlimit Hb Ha Hcat Hst Hname Hurl Hcount Hl Hnot.
  assert (Hlim : forall p, limit_reached cfg p = false).
  { intros p. apply limit_reached_off. auto. }
  (* first run *)
  destruct (for_each_total cfg env cats before cache no_counts w Hb Hcat Hst)
    as (wb & cb & nb & Eb & Hstb).
  pose proof (for_each_absent _ _ _ _ _ _ _ _ _ _ _ Eb Hl Hnot) as Hlb.
  destruct (categorize_with_llm_total env repo cats (announce name wb))
    as (wr & entry & Ec); [congruence | assumption | assumption |].
  pose proof (categorize_with_llm_entry _ _ _ _ _ _ Ec) as (Hse & _).
  rewrite Hcount in Hse. simpl in Hse.
  assert (Er : process_repo cfg env cats (cb, nb) repo wb
               = (wr, Ok (@pair Cache Counters (setitem name entry cb)
                            (bump_processed nb)))).
  { unfold process_repo. unfold_M. rewrite Hname. simpl. rewrite Hlb, Hlim.
    simpl. fold (announce name wb). rewrite Ec. reflexivity. }
  assert (Hstr : Forall has_stars (setitem name entry cb)).
  { apply (Forall_setitem (fun e => entry_stars e <> None)); [assumption|].
    congruence. }
  destruct (for_each_total cfg env cats after _ (bump_processed nb) wr
              Ha Hcat Hstr) as (w1 & cache1 & n1 & Ea & Hst1).
  pose proof (for_each_entry _ _ _ _ _ _ _ _ _ _ name entry Ea
                (lookup_setitem_same _ _ _)) as Hl1.
  (* second run *)
  destruct (for_each_total cfg env' cats before cache1 no_counts w2
              Hb Hcat Hst1) as (wb' & cb' & nb' & Eb' & Hstb').
  assert (Hlb' : exists e', lookup name cb' = Some e').
  { pose proof (for_each_extends _ _ _ _ _ _ _ _ _ Eb')
      as (out & _ & _ & _ & _ & Hk).
    specialize (Hk _ eq_refl). simpl in Hk.
    destruct (lookup name cb') as [e'|] eqn:E; [now eexists|].
    apply lookup_None_keys in E. exfalso. apply E. rewrite Hk.
    apply in_or_app. left. eapply lookup_Some_keys; eauto. }
  destruct Hlb' as [e' Hlb'].
  assert (He' : entry_stars e' <> None).
  { apply (lookup_Forall (fun e => entry_stars e <> None) _ _ _ Hstb' Hlb'). }
  exists (say (summary cfg n1) w1), cache1,
         (refresh entry (fetched_count name after)), wb'.
  split; [|split; [exact Hl1|split]].
  - rewrite process_new_stars_unfold, for_each_app, Eb, for_each_cons, Er, Ea.
    reflexivity.
  - destruct (fetched_count name after); simpl; [reflexivity | exact Hse].
  - rewrite process_new_stars_unfold, for_each_app, Eb', for_each_cons.
    unfold process_repo. unfold_M. rewrite Hname. simpl. rewrite Hlb'.
    destruct (entry_stars e'); [|congruence]. simpl. rewrite Hcount.
    reflexivity.
Qed.

Lemma missing_count_breaks_rerun_witness :
  exists w1 cache1 e w3,
    process_new_stars Sample.cfg_plain Probe.env
      ([Sample.repo "o/a" None 25] ++ Probe.no_count :: [])
      Sample.cached None Sample.world = (w1, Ok cache1) /\
    lookup "octo/nocount" cache1 = Some e /\
    entry_stars e = Some (get (fetched_count "octo/nocount" []) 0) /\
    process_new_stars Sample.cfg_plain Probe.env
      ([Sample.repo "o/a" None 25] ++ Probe.no_count :: [])
      cache1 None Sample.world
      = (w3, Raise (KeyError "stargazers_count")).
Proof.
  apply (missing_count_breaks_rerun Sample.cfg_plain Probe.env Probe.env
           [Sample.repo "o/a" None 25] Probe.no_count [] Sample.cached None
           Sample.world Sample.world "octo/nocount").
  - reflexivity.
  - repeat constructor; simpl; discriminate.
  - constructor.
  - exact I.
  - repeat constructor; simpl; discriminate.
  - reflexivity.
  - discriminate.
  - reflexivity.
  - reflexivity.
  - simpl. intros [H|[]]. discriminate.
Defined.

(* ================================================================= *)
(** ** Further properties: grouping and counting *)

(** X19.  The list rendered under a category is the cache's entries of
    that category, taken in the cache's order and then sorted by
    descending popularity: entries of equal popularity appear in the order
    in which the cache holds them. *)
Theorem sections_follow_cache_order cache sorted_categories categories category :
  organize cache = Ok (sorted_categories, categories) ->
  In category sorted_categories ->
  exists repos,
    lookup category categories = Some repos /\
    Permutation (members category cache) repos /\
    descending repos /\
    forall count,
      with_stars count repos = with_stars count (members category cache).
Proof.
  intros H Hin. apply organize_inv in H as (grouped & Hg & -> & ->).
  destruct (organize_lookup _ _ _ Hg Hin) as [_ Hl].
  exists (sort_reverse item_stars (members category cache)).
  split; [assumption|]. split; [apply sort_reverse_perm|].
  split; [apply sort_reverse_sorted|].
  intros count. apply sort_reverse_stable.
Qed.

Lemma sections_follow_cache_order_witness :
  exists repos,
    lookup "Tools"
      [("Tools", sort_reverse item_stars (members "Tools" Sample.ties))]
      = Some repos /\
    Permutation (members "Tools" Sample.ties) repos /\
    descending repos /\
    forall count,
      with_stars count repos = with_stars count (members "Tools" Sample.ties).
Proof.
  apply (sections_follow_cache_order Sample.ties ["Tools"]
           [("Tools", sort_reverse item_stars (members "Tools" Sample.ties))]
           "Tools").
  - reflexivity.
  - now left.
Defined.

Lemma count_in_cons label kv (cache : Cache) category :
  entry_category (snd kv) = Some category ->
  count_in label (kv :: cache)
  = if String.eqb category label then S (count_in label cache)
    else count_in label cache.
Proof.
  unfold count_in. simpl. intros ->.
  destruct (String.eqb category label); reflexivity.
Qed.

Lemma toc_total_other labels kv (cache : Cache) category :
  entry_category (snd kv) = Some category -> ~ In category labels ->
  toc_total labels (kv :: cache) = toc_total labels cache.
Proof.
  intros Hc. induction labels as [|c labels IH]; intros Hnot; [reflexivity|].
  cbn [toc_total fold_right]. rewrite (count_in_cons _ _ _ _ Hc).
  destruct (String.eqb_spec category c) as [->|_].
  - exfalso. apply Hnot. now left.
  - f_equal. apply IH. intros H. apply Hnot. now right.
Qed.

Lemma toc_total_cons labels kv (cache : Cache) category :
  entry_category (snd kv) = Some category ->
  NoDup labels -> In category labels ->
  toc_total labels (kv :: cache) = S (toc_total labels cache).
Proof.
  intros Hc. induction labels as [|c labels IH]; intros Hnd Hin;
    [destruct Hin|].
  inversion Hnd as [|? ? Hnot Hnd']; subst.
  cbn [toc_total fold_right]. rewrite (count_in_cons _ _ _ _ Hc).
  destruct (String.eqb_spec category c) as [->|Hne].
  - fold (toc_total labels (kv :: cache)). fold (toc_total labels cache).
    now rewrite (toc_total_other _ _ _ _ Hc Hnot).
  - destruct Hin as [E|Hin]; [congruence|].
    fold (toc_total labels (kv :: cache)). fold (toc_total labels cache).
    rewrite (IH Hnd' Hin). lia.
Qed.

Lemma toc_total_covers labels (cache : Cache) :
  NoDup labels ->
  Forall (fun kv => exists category,
            entry_category (snd kv) = Some category /\ In category labels)
         cache ->
  toc_total labels cache = List.length cache.
Proof.
  intros Hnd. induction 1 as [|kv cache (category & Hc & Hin) _ IH].
  - unfold toc_total, count_in. simpl.
    induction labels as [|c labels IHl]; [reflexivity|].
    simpl. apply IHl. now inversion Hnd.
  - rewrite (toc_total_cons _ _ _ _ Hc Hnd Hin), IH. reflexivity.
Qed.

(** The counts of the section order's labels add up to the number of
    entries: every cache entry is counted under exactly one label. *)
Lemma toc_total_of_organize cache sorted_categories categories :
  organize cache = Ok (sorted_categories, categories) ->
  toc_total sorted_categories cache = List.length cache.
Proof.
  intros H.
  pose proof (sections_in_order_facts cache sorted_categories categories H)
    as (Hnd & Hin).
  apply toc_total_covers; [assumption|].
  apply organize_inv in H as (grouped & Hg & _ & _).
  apply Forall_forall. intros [name data] Hkv.
  destruct (entry_category data) as [category|] eqn:Hc.
  - exists category. split; [assumption|]. apply Hin.
    unfold count_in.
    assert (In (name, data)
              (filter (fun kv => match entry_category (snd kv) with
                                 | Some c => String.eqb c category
                                 | None => false
                                 end) cache)).
    { apply filter_In. split; [assumption|]. simpl.
      now rewrite Hc, String.eqb_refl. }
    destruct (filter _ cache); [contradiction | simpl; lia].
  - exfalso. clear - Hg Hkv Hc. revert Hg. generalize (@nil (string * list Item)).
    induction cache as [|[k e] cache IH]; intros acc; [destruct Hkv|].
    simpl. destruct Hkv as [[= -> ->]|Hkv].
    + rewrite Hc. discriminate.
    + destruct (entry_category e); simpl; [|discriminate].
      destruct (entry_url e); simpl; [|discriminate].
      destruct (entry_description e); simpl; [|discriminate].
      destruct (entry_stars e); simpl; [|discriminate].
      apply IH. assumption.
Qed.

Lemma toc_total_sum labels (cache : Cache) :
  toc_total labels cache
  = list_sum (map (fun category => count_in category cache) labels).
Proof.
  induction labels as [|c labels IH]; [reflexivity|].
  unfold toc_total, list_sum in *. cbn [map fold_right]. now f_equal.
Qed.

(** X20.  In a document that renders, the total the header shows is the sum
    of the counts the lines of the table of contents show, and the count
    shown for a label is the number of cache entries of that category:
    every cache entry is counted under exactly one label. *)
Theorem toc_counts_add_up lower now cache doc :
  render lower now cache = Ok doc ->
  exists labels counts body,
    counts = map (fun category => count_in category cache) labels /\
    doc = layout now (list_sum counts) (contents_text lower labels counts)
            body.
Proof.
  intros H.
  apply render_layout in H as (labels & categories & lines & Horg & Hlen & ->).
  exists labels, (map (fun category => count_in category cache) labels),
    (body_text labels lines).
  split; [reflexivity|].
  now rewrite <- toc_total_sum, (toc_total_of_organize _ _ _ Horg).
Qed.

Lemma toc_counts_add_up_witness :
  exists labels counts body,
    counts = map (fun category => count_in category Probe.mixed) labels /\
    Sample.value "" (render ascii_lower "2024-05-01 12:00 UTC" Probe.mixed)
    = layout "2024-05-01 12:00 UTC" (list_sum counts)
        (contents_text ascii_lower labels counts) body.
Proof.
  apply (toc_counts_add_up ascii_lower "2024-05-01 12:00 UTC" Probe.mixed
           (Sample.value ""
              (render ascii_lower "2024-05-01 12:00 UTC" Probe.mixed))).
  vm_compute. reflexivity.
Defined.
